(** * Simulate-then-sweep notebooks of ModSimPy: a shallow embedding

    The development follows [examples/plague.ipynb] (an SIR epidemic with two
    policy levers and two grid sweeps) and the Spider-Man notebook stored in
    the same source file (a projectile on a springy web, run in two phases).

    Conventions.
    - Python floats are read as real numbers ([R]); [x ** y] on a positive
      base is [Rpower].  Integers that stay integers in the notebook (dose
      counts, the budget, time steps of the epidemic) are [Z].
    - Python objects that are mutated through a reference ([System],
      [Params]) live in a heap; a variable holding such an object is a
      location.  Functions of the notebooks that touch objects are written in
      a small state-and-exception monad [Py].
    - Code imported from [modsim] and [chap11] is not part of the sources at
      hand; it appears as the fields of a class of collaborators. *)

From Stdlib Require Import Reals Lra Lia ZArith List Permutation.
Import ListNotations.

Open Scope R_scope.

(** ** Python exceptions and the object heap *)

Inductive exn : Type :=
| KeyError        (* label lookup in a Series or frame that has no such label *)
| IndexError      (* positional access [-1] into an empty index *)
| AttributeError  (* attribute read on an object that does not carry it *)
| ZeroDivisionError. (* division of Python numbers by zero *)

Inductive result (A : Type) : Type :=
| Ok (a : A)
| Raise (e : exn).

Arguments Ok {A} a.
Arguments Raise {A} e.

Definition loc := nat.

Section Heap.
Variable Obj : Type.

Definition heap := list Obj.

Definition Py (A : Type) := heap -> result (A * heap).

Definition ret {A} (a : A) : Py A := fun h => Ok (a, h).

Definition bind {A B} (m : Py A) (f : A -> Py B) : Py B :=
  fun h => match m h with
           | Ok (a, h') => f a h'
           | Raise e => Raise e
           end.

Definition raise {A} (e : exn) : Py A := fun _ => Raise e.

Definition lift {A} (r : result A) : Py A :=
  fun h => match r with
           | Ok a => Ok (a, h)
           | Raise e => Raise e
           end.

(** Object creation: the new object gets the next free address. *)
Definition new (o : Obj) : Py loc := fun h => Ok (length h, h ++ [o]).

Fixpoint update (h : heap) (l : loc) (o : Obj) : heap :=
  match h, l with
  | [], _ => []
  | _ :: rest, O => o :: rest
  | x :: rest, S l' => x :: update rest l' o
  end.

(** Dereference.  A location handed out by [new] is always live; the
    failure branch only keeps the functions total. *)
Definition getobj (l : loc) : Py Obj :=
  fun h => match nth_error h l with
           | Some o => Ok (o, h)
           | None => Raise AttributeError
           end.

(** In-place store through a reference. *)
Definition setobj (l : loc) (o : Obj) : Py unit :=
  fun h => match nth_error h l with
           | Some _ => Ok (tt, update h l o)
           | None => Raise AttributeError
           end.

(** [for x in arr: st = body x st] *)
Fixpoint for_in {K St : Type} (arr : list K) (body : K -> St -> Py St)
         (st : St) : Py St :=
  match arr with
  | [] => ret st
  | x :: rest => bind (body x st) (for_in rest body)
  end.

(** The value a computation yields when it is run on its own, from an
    empty heap. *)
Definition alone {A} (m : Py A) : result A :=
  match m [] with
  | Ok (a, _) => Ok a
  | Raise e => Raise e
  end.
End Heap.

Arguments ret {Obj A} a _.
Arguments bind {Obj A B} m f _.
Arguments raise {Obj A} e _.
Arguments lift {Obj A} r _.
Arguments new {Obj} o _.
Arguments update {Obj} h l o.
Arguments getobj {Obj} l _.
Arguments setobj {Obj} l o _.
Arguments for_in {Obj K St} arr body st _.
Arguments alone {Obj A} m.

(** [m] changes the object at [l] in place into [f] of it, and changes no
    other address. *)
Definition in_place {Obj : Type} (m : Py Obj unit) (l : loc)
           (f : Obj -> Obj) : Prop :=
  forall h o,
    nth_error h l = Some o ->
    exists h',
      m h = Ok (tt, h')
      /\ nth_error h' l = Some (f o)
      /\ length h' = length h
      /\ forall l', l' <> l -> nth_error h' l' = nth_error h l'.

(** [m] only creates objects: whenever it returns, every object that
    existed before is still there, unchanged, at its address. *)
Definition allocates_only {Obj A : Type} (m : Py Obj A) : Prop :=
  forall h a h', m h = Ok (a, h') -> exists created, h' = h ++ created.

Declare Scope py_scope.
Delimit Scope py_scope with py.
Notation "x <- m ;; k" := (bind m (fun x => k))
  (at level 61, m at next level, right associativity) : py_scope.
Notation "m ;;; k" := (bind m (fun _ => k))
  (at level 61, right associativity) : py_scope.

(** ** Series keyed by a sweep value ([SweepSeries] of modsim) *)

Section SweepSeries.
Variable K : Type.
Variable K_eq_dec : forall a b : K, {a = b} + {a <> b}.

(** Modelled from the spec: modsim's [SweepSeries] is not among the
    sources; the spec describes it as a mapping from lever value to scalar
    outcome with unique keys, kept in insertion order. *)
Definition SweepSeries := list (K * R).

Definition SweepSeries_new : SweepSeries := [].

(** [sweep[key] = value]: overwrite in place when the label exists,
    append a new entry otherwise. *)
Fixpoint setitem (sweep : SweepSeries) (key : K) (value : R) : SweepSeries :=
  match sweep with
  | [] => [(key, value)]
  | (k0, v0) :: rest =>
      if K_eq_dec key k0 then (k0, value) :: rest
      else (k0, v0) :: setitem rest key value
  end.

Fixpoint getitem (sweep : SweepSeries) (key : K) : option R :=
  match sweep with
  | [] => None
  | (k0, v0) :: rest =>
      if K_eq_dec key k0 then Some v0 else getitem rest key
  end.

Definition keys (sweep : SweepSeries) : list K := map fst sweep.

(** [k] is not among the labels [ks]. *)
Definition absent (ks : list K) (k : K) : bool :=
  if in_dec K_eq_dec k ks then false else true.

(** The candidates of a sweep in the order in which they first occur. *)
Fixpoint first_occurrences (arr : list K) : list K :=
  match arr with
  | [] => []
  | x :: rest => x :: remove K_eq_dec x (first_occurrences rest)
  end.
End SweepSeries.

Arguments SweepSeries_new {K}.
Arguments setitem {K} K_eq_dec sweep key value.
Arguments getitem {K} K_eq_dec sweep key.
Arguments keys {K} sweep.
Arguments first_occurrences {K} K_eq_dec arr.
Arguments absent {K} K_eq_dec ks k.

(** What a grid sweep owes its caller.  [eval v] is the outcome of one
    evaluation of the pipeline for the candidate [v] alone; [sweep_fn] is the
    sweep.  Whatever heap the sweep starts from:
    - the sweep of the empty sequence is the empty series;
    - the sweep of [[v]] is the single entry [(v, eval v)] (or the failure of
      that evaluation);
    - when every candidate evaluates, the sweep returns a series whose keys
      are the candidates in the order of their first occurrence, each
      exactly once (so, for pairwise distinct candidates, the input sequence
      itself), the entry of [v] holding [eval v]; and a sweep of the same
      candidates in any other order holds the same entry for every key. *)
Definition sweep_contract {Obj K : Type}
           (K_eq_dec : forall a b : K, {a = b} + {a <> b})
           (eval : K -> result R)
           (sweep_fn : list K -> Py Obj (SweepSeries K)) : Prop :=
  (forall h, sweep_fn [] h = Ok (SweepSeries_new, h))
  /\ (forall v h,
        match eval v with
        | Ok out => exists h', sweep_fn [v] h = Ok ([(v, out)], h')
        | Raise e => sweep_fn [v] h = Raise e
        end)
  /\ (forall arr h,
        (forall v, In v arr -> exists out, eval v = Ok out) ->
        exists sweep h',
          sweep_fn arr h = Ok (sweep, h')
          /\ keys sweep = first_occurrences K_eq_dec arr
          /\ NoDup (keys sweep)
          /\ (forall v, In v (keys sweep) <-> In v arr)
          /\ (NoDup arr -> keys sweep = arr)
          /\ (forall v, In v arr ->
                exists out, eval v = Ok out
                            /\ getitem K_eq_dec sweep v = Some out)
          /\ (forall arr' h2, Permutation arr arr' ->
                exists sweep' h2',
                  sweep_fn arr' h2 = Ok (sweep', h2')
                  /\ forall v, getitem K_eq_dec sweep' v
                               = getitem K_eq_dec sweep v)).

(** The series a sweep builds from the outcomes [eval] of its candidates,
    stopping at the first evaluation that fails. *)
Fixpoint record_all {K : Type} (K_eq_dec : forall a b : K, {a = b} + {a <> b})
         (eval : K -> result R) (arr : list K) (sweep : SweepSeries K)
  : result (SweepSeries K) :=
  match arr with
  | [] => Ok sweep
  | x :: rest =>
      match eval x with
      | Ok out => record_all K_eq_dec eval rest (setitem K_eq_dec sweep x out)
      | Raise e => Raise e
      end
  end.

(** ** The Freshman Plague *)

Module Plague.

Module State.
Record t : Type := make { s : R; i : R; r : R }.
Definition set_s (st : t) (v : R) : t := make v (i st) (r st).
Definition set_r (st : t) (v : R) : t := make (s st) (i st) v.
End State.

(** A [System] object.  Its [init] is the [State] built together with it
    by [make_system]; no other object refers to that [State], so it is
    kept inside the record. *)
Module System.
Record t : Type :=
  make { init : State.t; t_end : Z; beta : R; gamma : R }.
Definition set_init (sys : t) (v : State.t) : t :=
  make v (t_end sys) (beta sys) (gamma sys).
Definition set_beta (sys : t) (v : R) : t :=
  make (init sys) (t_end sys) v (gamma sys).
End System.

(** A [TimeFrame]: one row of state per time label, in insertion order. *)
Definition TimeFrame := list (Z * State.t).

(** [frame.loc[t]] *)
Fixpoint frame_loc (frame : TimeFrame) (t : Z) : option State.t :=
  match frame with
  | [] => None
  | (t0, row) :: rest => if Z.eqb t t0 then Some row else frame_loc rest t
  end.

(** [results.s[t]]: the susceptible column at label [t]. *)
Definition frame_s (results : TimeFrame) (t : Z) : result R :=
  match frame_loc results t with
  | Some row => Ok (State.s row)
  | None => Raise KeyError
  end.

(** What the notebook imports from [chap11].  [make_system] builds a new
    [System] whose [init] is a new [State]; [run_simulation] reads the
    system and returns a new frame without changing the system. *)
Class Chap11 : Type := {
  make_system_value : R -> R -> System.t;
  update_func : Z -> State.t -> System.t -> State.t;
  run_simulation_value :
    System.t -> (Z -> State.t -> System.t -> State.t) -> TimeFrame
}.

Import System.

Local Open Scope py_scope.

Definition PyP := Py System.t.

(** [x ** y] for a positive float base. *)
Definition py_pow (b e : R) : R := Rpower b e.

Definition tc : R := 3.
Definition tr : R := 4.
Definition beta : R := 1 / tc.
Definition gamma : R := 1 / tr.

Definition add_immunization (system : loc) (fraction : R) : PyP unit :=
  sys <- getobj system ;;
  setobj system
    (set_init sys (State.set_s (init sys) (State.s (init sys) - fraction))) ;;;
  sys <- getobj system ;;
  setobj system
    (set_init sys (State.set_r (init sys) (State.r (init sys) + fraction))).

Definition logistic (x A B C M K Q nu : R) : R :=
  let exponent := - B * (x - M) in
  let denom := C + Q * exp exponent in
  A + (K - A) / py_pow denom (1 / nu).

(** [logistic(spending, M=500, K=0.2, B=0.01)], the other arguments at
    their defaults [A=0, C=1, Q=1, nu=1]. *)
Definition compute_factor (spending : R) : R :=
  logistic spending 0 (1 / 100) 1 500 (2 / 10) 1 1.

Definition add_hand_washing (system : loc) (spending : R) : PyP unit :=
  let factor := compute_factor spending in
  sys <- getobj system ;;
  setobj system (set_beta sys (System.beta sys * (1 - factor))).

Definition calc_total_infected (results : TimeFrame) (system : loc)
  : PyP R :=
  s_0 <- lift (frame_s results 0) ;;
  sys <- getobj system ;;
  s_end <- lift (frame_s results (t_end sys)) ;;
  ret (s_0 - s_end).

Definition num_students : Z := 90.
Definition budget : Z := 1200.
Definition price_per_dose : Z := 100.

(** [int(budget / price_per_dose)]: the quotient truncated towards zero. *)
Definition max_doses : Z := Z.quot budget price_per_dose.

(** Modelled from the spec: modsim's [linrange] is not among the sources;
    with one argument it returns the integers from 0 to that argument,
    both included. *)
Definition linrange (stop : Z) : list Z :=
  map Z.of_nat (seq 0 (Z.to_nat stop + 1)).

Definition dose_array : list Z := linrange max_doses.

(** The system that [add_hand_washing] leaves behind. *)
Definition washed (sys : System.t) (spending : R) : System.t :=
  set_beta sys (System.beta sys * (1 - compute_factor spending)).

(** The system that [add_immunization] leaves behind. *)
Definition immunized (sys : System.t) (fraction : R) : System.t :=
  set_init sys (State.make (State.s (init sys) - fraction)
                           (State.i (init sys))
                           (State.r (init sys) + fraction)).

(** A trajectory spans the run of [sys] when it has a row at time 0 and a
    row at the end time the system declares. *)
Definition full_span (results : TimeFrame) (sys : System.t) : Prop :=
  frame_loc results 0 <> None /\ frame_loc results (t_end sys) <> None.

Section WithChap11.
Context {C : Chap11}.

Definition make_system (b g : R) : PyP loc := new (make_system_value b g).

Definition run_simulation (system : loc)
           (uf : Z -> State.t -> System.t -> State.t) : PyP TimeFrame :=
  sys <- getobj system ;;
  ret (run_simulation_value sys uf).

Definition sweep_hand_washing (spending_array : list R)
  : PyP (SweepSeries R) :=
  for_in spending_array
    (fun spending sweep =>
       system <- make_system beta gamma ;;
       add_hand_washing system spending ;;;
       results <- run_simulation system update_func ;;
       total <- calc_total_infected results system ;;
       ret (setitem Req_dec_T sweep spending total))
    SweepSeries_new.

Definition sweep_doses (dose_array : list Z) : PyP (SweepSeries Z) :=
  for_in dose_array
    (fun doses sweep =>
       let fraction := IZR doses / IZR num_students in
       let spending := IZR (budget - doses * price_per_dose) in
       system <- make_system beta gamma ;;
       add_immunization system fraction ;;;
       add_hand_washing system spending ;;;
       results <- run_simulation system update_func ;;
       total <- calc_total_infected results system ;;
       ret (setitem Z.eq_dec sweep doses total))
    SweepSeries_new.

(** One evaluation of the pipeline, compose -> integrate -> extract, for
    a hand-washing budget on its own. *)
Definition evaluate_hand_washing (spending : R) : PyP R :=
  system <- make_system beta gamma ;;
  add_hand_washing system spending ;;;
  results <- run_simulation system update_func ;;
  calc_total_infected results system.

(** One evaluation of the pipeline for an immunised fraction together
    with a hand-washing budget. *)
Definition evaluate_policy (fraction spending : R) : PyP R :=
  system <- make_system beta gamma ;;
  add_immunization system fraction ;;;
  add_hand_washing system spending ;;;
  results <- run_simulation system update_func ;;
  calc_total_infected results system.

(** The susceptible fraction a run starts from after immunisation. *)
Definition susceptible_initial (fraction : R) : PyP R :=
  system <- make_system beta gamma ;;
  add_immunization system fraction ;;;
  sys <- getobj system ;;
  ret (State.s (init sys)).

(** The scalar outcome of integrating a composed system. *)
Definition outcome (sys : System.t) : result R :=
  let results := run_simulation_value sys update_func in
  match frame_s results 0 with
  | Ok s_0 =>
      match frame_s results (t_end sys) with
      | Ok s_end => Ok (s_0 - s_end)
      | Raise e => Raise e
      end
  | Raise e => Raise e
  end.

(** The integrator returns a full-span trajectory for every system whose
    end time is not negative. *)
Definition integrator_full_span : Prop :=
  forall sys uf,
    (0 <= t_end sys)%Z -> full_span (run_simulation_value sys uf) sys.

(** The system that one iteration of [sweep_doses] composes. *)
Definition dosed (d : Z) : System.t :=
  washed (immunized (make_system_value beta gamma)
                    (IZR d / IZR num_students))
         (IZR (budget - d * price_per_dose)).

(** The outcome recorded for a hand-washing budget. *)
Definition eval_hand_washing (spending : R) : result R :=
  alone (evaluate_hand_washing spending).

(** The outcome recorded for a number of doses: the doses fix the immunised
    fraction, and what is left of the budget goes to hand washing. *)
Definition eval_doses (doses : Z) : result R :=
  alone (evaluate_policy (IZR doses / IZR num_students)
                         (IZR (budget - doses * price_per_dose))).
End WithChap11.

(** Modelled from the spec: [chap11] is not among the sources.  This is a
    concrete set of collaborators on which the theorems are exercised: the
    SIR compartment model in fractions of a population of 90 with one
    student infected, stepped once a day for 14 weeks, every step recorded
    in the frame. *)
Definition chap11_make_system (b g : R) : System.t :=
  System.make (State.make (89 / 90) (1 / 90) (0 / 90)) (7 * 14) b g.

Definition chap11_update_func (t : Z) (state : State.t) (system : System.t)
  : State.t :=
  let infected := System.beta system * State.i state * State.s state in
  let recovered := System.gamma system * State.i state in
  State.make (State.s state - infected)
             (State.i state + infected - recovered)
             (State.r state + recovered).

Fixpoint chap11_steps (n : nat) (t : Z) (row : State.t) (system : System.t)
         (uf : Z -> State.t -> System.t -> State.t) : TimeFrame :=
  match n with
  | O => []
  | S n' =>
      let row' := uf t row system in
      (t + 1, row')%Z :: chap11_steps n' (t + 1)%Z row' system uf
  end.

Definition chap11_run_simulation (system : System.t)
           (uf : Z -> State.t -> System.t -> State.t) : TimeFrame :=
  (0%Z, init system)
    :: chap11_steps (Z.to_nat (t_end system)) 0 (init system) system uf.

Definition chap11 : Chap11 :=
  {| make_system_value := chap11_make_system;
     update_func := chap11_update_func;
     run_simulation_value := chap11_run_simulation |}.

(** A second set of sample collaborators: the same model, but on the
    systems that [stops] selects the run stops after its first row, so that
    the frame has no row at the end time. *)
Definition chap11_stopping (stops : System.t -> bool) : Chap11 :=
  {| make_system_value := chap11_make_system;
     update_func := chap11_update_func;
     run_simulation_value :=
       fun system uf =>
         if stops system then [(0%Z, init system)]
         else chap11_run_simulation system uf |}.

(** The run stops early when the contact rate is below 0.3. *)
Definition slow_contact (system : System.t) : bool :=
  if Rlt_dec (System.beta system) (3 / 10) then true else false.

(** The run stops early when fewer than 88 of 90 are susceptible. *)
Definition few_susceptible (system : System.t) : bool :=
  if Rlt_dec (State.s (init system)) (88 / 90) then true else false.
End Plague.

(** ** Spider-Man *)

Module SpiderMan.

Module Vector.
Record t : Type := make { x : R; y : R }.
Definition add (a b : t) : t := make (x a + x b) (y a + y b).
Definition sub (a b : t) : t := make (x a - x b) (y a - y b).
Definition neg (a : t) : t := make (- x a) (- y a).
Definition scale (a : t) (c : R) : t := make (x a * c) (y a * c).
Definition div (a : t) (c : R) : t := make (x a / c) (y a / c).
Definition zero : t := make 0 0.
End Vector.

(** Modelled from the spec: modsim's vector helpers are not among the
    sources.  [vector_mag] is the Euclidean magnitude. *)
Definition vector_mag (v : Vector.t) : R :=
  sqrt (Vector.x v * Vector.x v + Vector.y v * Vector.y v).

(** Modelled from the spec: modsim's vector helpers are not among the
    sources.  [vector_hat] is the unit vector of its argument; a vector of
    magnitude zero is returned as it is. *)
Definition vector_hat (v : Vector.t) : Vector.t :=
  let mag := vector_mag v in
  if Req_dec_T mag 0 then v else Vector.div v mag.

(** [np.deg2rad] *)
Definition deg2rad (d : R) : R := d * PI / 180.

(** Modelled from the spec: modsim's [pol2cart] is not among the sources;
    it converts polar coordinates to Cartesian ones. *)
Definition pol2cart (theta rho : R) : R * R :=
  (rho * cos theta, rho * sin theta).

Module State.
Record t : Type := make { x : R; y : R; vx : R; vy : R }.
End State.

Module Params.
Record t : Type := make {
  height : R; g : R; mass : R; area : R; rho : R; v_term : R;
  length : R; angle : R; k : R; t_0 : R; t_end : R }.
Definition set_t_end (p : t) (v : R) : t :=
  make (height p) (g p) (mass p) (area p) (rho p) (v_term p)
       (length p) (angle p) (k p) (t_0 p) v.
Definition set_t_0 (p : t) (v : R) : t :=
  make (height p) (g p) (mass p) (area p) (rho p) (v_term p)
       (length p) (angle p) (k p) v (t_end p).
Definition set_k (p : t) (v : R) : t :=
  make (height p) (g p) (mass p) (area p) (rho p) (v_term p)
       (length p) (angle p) v (t_0 p) (t_end p).
End Params.

(** [System(params, init=init, C_d=C_d)] copies the variables of [params]
    into the new object and adds [init] and [C_d]. *)
Module System.
Record t : Type := make { params : Params.t; init : State.t; C_d : R }.
Definition height (sys : t) : R := Params.height (params sys).
Definition g (sys : t) : R := Params.g (params sys).
Definition mass (sys : t) : R := Params.mass (params sys).
Definition area (sys : t) : R := Params.area (params sys).
Definition rho (sys : t) : R := Params.rho (params sys).
Definition length (sys : t) : R := Params.length (params sys).
Definition k (sys : t) : R := Params.k (params sys).
Definition t_0 (sys : t) : R := Params.t_0 (params sys).
Definition t_end (sys : t) : R := Params.t_end (params sys).
End System.

(** The objects of this notebook: both kinds are namespaces of modsim. *)
Inductive Obj : Type :=
| ParamsObj (p : Params.t)
| SystemObj (sys : System.t).

(** The variables of a namespace that [Params] declares; a [System] carries
    them too. *)
Definition params_of (o : Obj) : Params.t :=
  match o with
  | ParamsObj p => p
  | SystemObj sys => System.params sys
  end.

Definition PyS := Py Obj.

Definition TimeFrame := list (R * State.t).

(** [results.index[-1]] *)
Definition index_last (results : TimeFrame) : result R :=
  match rev results with
  | [] => Raise IndexError
  | (t, _) :: _ => Ok t
  end.

(** [results.iloc[-1]] *)
Definition iloc_last (results : TimeFrame) : result State.t :=
  match rev results with
  | [] => Raise IndexError
  | (_, row) :: _ => Ok row
  end.

(** [pd.concat([results1, results2])] *)
Definition concat (results1 results2 : TimeFrame) : TimeFrame :=
  results1 ++ results2.

Definition SlopeFunc := R -> State.t -> System.t -> R * R * R * R.
Definition EventFunc := R -> State.t -> System.t -> R.

(** How a run of the integrator ended. *)
Inductive Details : Type :=
| reached_t_end
| event_fired
| failed.

(** What the notebook imports from [modsim] to integrate: given a system,
    a slope function and possibly an event function, [run_solve_ivp] returns
    the sampled trajectory and the details of the run; it reads the system
    and does not change it. *)
Class Modsim : Type := {
  run_solve_ivp_value :
    System.t -> SlopeFunc -> option EventFunc -> TimeFrame * Details
}.

Local Open Scope py_scope.

(** The parameters of the notebook. *)
Definition params : Params.t :=
  Params.make 381 (98 / 10) 75 1 (12 / 10) 60 100 (270 - 45) 40 0 30.

Definition initial_condition (p : Params.t) : State.t :=
  let H := Vector.make 0 (Params.height p) in
  let theta := deg2rad (Params.angle p) in
  let (x, y) := pol2cart theta (Params.length p) in
  let L := Vector.make x y in
  let P := Vector.add H L in
  State.make (Vector.x P) (Vector.y P) 0 0.

(** The parameters are Python numbers, so the division that solves [C_d]
    raises when its denominator [rho * area * v_term**2] is zero. *)
Definition make_system (params : loc) : PyS loc :=
  o <- getobj params ;;
  let p := params_of o in
  let init := initial_condition p in
  if Req_dec_T (Params.rho p * Params.area p * Params.v_term p ^ 2) 0
  then raise ZeroDivisionError
  else
    let C_d := 2 * Params.mass p * Params.g p
               / (Params.rho p * Params.area p * Params.v_term p ^ 2) in
    new (SystemObj (System.make p init C_d)).

Definition drag_force (V : Vector.t) (system : System.t) : Vector.t :=
  let mag := System.rho system * vector_mag V ^ 2
             * System.C_d system * System.area system / 2 in
  let direction := Vector.neg (vector_hat V) in
  let f_drag := Vector.scale direction mag in
  f_drag.

Definition spring_force (L : Vector.t) (system : System.t) : Vector.t :=
  let extension := vector_mag L - System.length system in
  let mag := if Rlt_dec extension 0 then 0
             else System.k system * extension in
  let direction := Vector.neg (vector_hat L) in
  let f_spring := Vector.scale direction mag in
  f_spring.

Definition slope_func : SlopeFunc :=
  fun t state system =>
    let P := Vector.make (State.x state) (State.y state) in
    let V := Vector.make (State.vx state) (State.vy state) in
    let H := Vector.make 0 (System.height system) in
    let L := Vector.sub P H in
    let a_grav := Vector.make 0 (- System.g system) in
    let a_spring := Vector.div (spring_force L system) (System.mass system) in
    let a_drag := Vector.div (drag_force V system) (System.mass system) in
    let A := Vector.add (Vector.add a_grav a_drag) a_spring in
    (Vector.x V, Vector.y V, Vector.x A, Vector.y A).

Definition event_func : EventFunc :=
  fun t state system => State.y state.

(** [namespace.set(t_end=v)]: a copy of the object with [t_end] replaced. *)
Definition set_t_end (o : loc) (v : R) : PyS loc :=
  obj <- getobj o ;;
  match obj with
  | ParamsObj p => new (ParamsObj (Params.set_t_end p v))
  | SystemObj sys =>
      new (SystemObj (System.make (Params.set_t_end (System.params sys) v)
                                  (System.init sys) (System.C_d sys)))
  end.

(** [system.set(init=init, t_0=t_0, t_end=t_end, k=k)]: a copy of the
    system with these four variables replaced. *)
Definition set_init_t_0_t_end_k (system : loc) (init : State.t)
           (t_0 t_end k : R) : PyS loc :=
  obj <- getobj system ;;
  match obj with
  | SystemObj sys =>
      let p := Params.set_k
                 (Params.set_t_end (Params.set_t_0 (System.params sys) t_0)
                                   t_end) k in
      new (SystemObj (System.make p init (System.C_d sys)))
  | ParamsObj _ => raise AttributeError
  end.

(** Two bundles of parameters agree on everything but [k], [t_0] and
    [t_end]. *)
Definition same_body (p q : Params.t) : Prop :=
  Params.height p = Params.height q
  /\ Params.g p = Params.g q
  /\ Params.mass p = Params.mass q
  /\ Params.area p = Params.area q
  /\ Params.rho p = Params.rho q
  /\ Params.v_term p = Params.v_term q
  /\ Params.length p = Params.length q
  /\ Params.angle p = Params.angle q.

(** The denominator of the division that solves the drag coefficient. *)
Definition drag_denominator (p : Params.t) : R :=
  Params.rho p * Params.area p * Params.v_term p ^ 2.

(** The system of phase 1: what [make_system] builds from parameters. *)
Definition phase1_system (p : Params.t) : System.t :=
  System.make p (initial_condition p)
              (2 * Params.mass p * Params.g p
               / (Params.rho p * Params.area p * Params.v_term p ^ 2)).

(** The system of phase 2: [sys1] restarted at time [t_0] from the state
    [init], for 10 seconds at most, with the spring switched off. *)
Definition phase2_system (sys1 : System.t) (t_0 : R) (init : State.t)
  : System.t :=
  System.make
    (Params.set_k
       (Params.set_t_end (Params.set_t_0 (System.params sys1) t_0)
                         (t_0 + 10)) 0)
    init (System.C_d sys1).

Section WithModsim.
Context {M : Modsim}.

Definition run_solve_ivp (system : loc) (slope : SlopeFunc)
           (events : option EventFunc) : PyS (TimeFrame * Details) :=
  obj <- getobj system ;;
  match obj with
  | SystemObj sys => ret (run_solve_ivp_value sys slope events)
  | ParamsObj _ => raise AttributeError
  end.

Definition run_two_phase (t_release : R) (params : loc) : PyS TimeFrame :=
  params1 <- set_t_end params t_release ;;
  system1 <- make_system params1 ;;
  r1 <- run_solve_ivp system1 slope_func None ;;
  let (results1, details1) := r1 in
  t_0 <- lift (index_last results1) ;;
  let t_end := t_0 + 10 in
  init <- lift (iloc_last results1) ;;
  system2 <- set_init_t_0_t_end_k system1 init t_0 t_end 0 ;;
  r2 <- run_solve_ivp system2 slope_func (Some event_func) ;;
  let (results2, details2) := r2 in
  ret (concat results1 results2).

Definition range_func (t_release : R) (params : loc) : PyS R :=
  results <- run_two_phase t_release params ;;
  row <- lift (iloc_last results) ;;
  ret (State.x row).
End WithModsim.

(** Modelled from the spec: modsim's integrator is not among the sources.
    This is a concrete collaborator on which the theorems are exercised: one
    explicit Euler step over the whole time span, sampling its start and its
    end; an event is reported as fired when the event function is not
    positive at the end sample. *)
Definition euler_run_solve_ivp (system : System.t) (slope : SlopeFunc)
           (events : option EventFunc) : TimeFrame * Details :=
  let t_0 := System.t_0 system in
  let t_end := System.t_end system in
  let init := System.init system in
  let dt := t_end - t_0 in
  let '(dx, dy, dvx, dvy) := slope t_0 init system in
  let final := State.make (State.x init + dt * dx) (State.y init + dt * dy)
                          (State.vx init + dt * dvx)
                          (State.vy init + dt * dvy) in
  let details :=
    match events with
    | Some event =>
        if Rle_dec (event t_end final system) 0 then event_fired
        else reached_t_end
    | None => reached_t_end
    end in
  ([(t_0, init); (t_end, final)], details).

Definition euler : Modsim := {| run_solve_ivp_value := euler_run_solve_ivp |}.

(** The dot product of two vectors. *)
Definition vector_dot (a b : Vector.t) : R :=
  Vector.x a * Vector.x b + Vector.y a * Vector.y b.

(** The web vector of a state: from the anchor at [(0, height)] to the
    position. *)
Definition web (state : State.t) (system : System.t) : Vector.t :=
  Vector.sub (Vector.make (State.x state) (State.y state))
             (Vector.make 0 (System.height system)).

End SpiderMan.

(** * Properties *)

(** ** The heap *)

Section HeapFacts.
Context {Obj : Type}.
Implicit Types (h : heap Obj) (o : Obj) (l : loc).

Lemma nth_error_fresh h o : nth_error (h ++ [o]) (length h) = Some o.
Proof.
  induction h as [| x h IH]; simpl; [reflexivity | exact IH].
Qed.

Lemma update_fresh h o o' : update (h ++ [o]) (length h) o' = h ++ [o'].
Proof.
  induction h as [| x h IH]; simpl; [reflexivity | now rewrite IH].
Qed.

Lemma update_update h l o o' : update (update h l o) l o' = update h l o'.
Proof.
  revert l; induction h as [| x h IH]; intros [| l]; simpl; try reflexivity.
  now rewrite IH.
Qed.

Lemma length_update h l o : length (update h l o) = length h.
Proof.
  revert l; induction h as [| x h IH]; intros [| l]; simpl; try reflexivity.
  now rewrite IH.
Qed.

Lemma nth_error_update_same h l o :
  (l < length h)%nat -> nth_error (update h l o) l = Some o.
Proof.
  revert l; induction h as [| x h IH]; intros [| l] Hl; simpl in *;
    try lia; [reflexivity | apply IH; lia].
Qed.

Lemma nth_error_update_other h l l' o :
  l <> l' -> nth_error (update h l o) l' = nth_error h l'.
Proof.
  revert l l'; induction h as [| x h IH]; intros [| l] [| l'] Hne; simpl;
    try reflexivity; try congruence.
  apply IH; congruence.
Qed.

Lemma nth_error_live h l o : nth_error h l = Some o -> (l < length h)%nat.
Proof.
  intros H. apply nth_error_Some. congruence.
Qed.

(** Allocation leaves every object that already exists where it is. *)
Lemma nth_error_extend h h' l o :
  nth_error h l = Some o -> nth_error (h ++ h') l = Some o.
Proof.
  intros H. rewrite nth_error_app1; [exact H | eapply nth_error_live; eauto].
Qed.
End HeapFacts.

(** ** Series keyed by a sweep value *)

Section SweepSeriesFacts.
Context {K : Type} (K_eq_dec : forall a b : K, {a = b} + {a <> b}).
Implicit Types (sweep : SweepSeries K) (k : K) (v : R) (arr : list K).

Local Abbreviation setitem := (setitem K_eq_dec).
Local Abbreviation getitem := (getitem K_eq_dec).
Local Abbreviation first_occurrences := (first_occurrences K_eq_dec).

Lemma keys_setitem_in sweep k v :
  In k (keys sweep) -> keys (setitem sweep k v) = keys sweep.
Proof.
  induction sweep as [| [k0 v0] rest IH]; simpl; intros Hin; [tauto |].
  destruct (K_eq_dec k k0) as [-> | Hne]; simpl; [reflexivity |].
  f_equal. apply IH. destruct Hin; congruence.
Qed.

Lemma keys_setitem_notin sweep k v :
  ~ In k (keys sweep) -> keys (setitem sweep k v) = keys sweep ++ [k].
Proof.
  induction sweep as [| [k0 v0] rest IH]; simpl; intros Hnotin;
    [reflexivity |].
  destruct (K_eq_dec k k0) as [-> | Hne]; simpl; [tauto |].
  f_equal. apply IH. tauto.
Qed.

Lemma getitem_setitem_same sweep k v : getitem (setitem sweep k v) k = Some v.
Proof.
  induction sweep as [| [k0 v0] rest IH]; simpl.
  - destruct (K_eq_dec k k); congruence.
  - destruct (K_eq_dec k k0) as [-> | Hne]; simpl.
    + destruct (K_eq_dec k0 k0); congruence.
    + destruct (K_eq_dec k k0); [congruence | exact IH].
Qed.

Lemma getitem_setitem_other sweep k k' v :
  k' <> k -> getitem (setitem sweep k v) k' = getitem sweep k'.
Proof.
  intros Hne.
  induction sweep as [| [k0 v0] rest IH]; simpl.
  - destruct (K_eq_dec k' k); congruence.
  - destruct (K_eq_dec k k0) as [-> | Hne0]; simpl.
    + destruct (K_eq_dec k' k0); congruence.
    + destruct (K_eq_dec k' k0); [reflexivity | exact IH].
Qed.

Lemma in_first_occurrences arr k : In k (first_occurrences arr) <-> In k arr.
Proof.
  induction arr as [| x rest IH]; simpl; [tauto |].
  split.
  - intros [-> | Hin]; [now left |].
    apply in_remove in Hin. right. apply IH. tauto.
  - intros [-> | Hin]; [now left |].
    destruct (K_eq_dec k x) as [-> | Hne]; [now left |].
    right. apply in_in_remove; [exact Hne | now apply IH].
Qed.

Lemma NoDup_remove_elt (l : list K) k : NoDup l -> NoDup (remove K_eq_dec k l).
Proof.
  induction 1 as [| x l Hx Hl IH]; simpl; [constructor |].
  destruct (K_eq_dec k x); [exact IH |].
  constructor; [| exact IH].
  intros Hin. apply in_remove in Hin. tauto.
Qed.

Lemma NoDup_first_occurrences arr : NoDup (first_occurrences arr).
Proof.
  induction arr as [| x rest IH]; simpl; constructor.
  - apply remove_In.
  - now apply NoDup_remove_elt.
Qed.

Lemma first_occurrences_NoDup arr : NoDup arr -> first_occurrences arr = arr.
Proof.
  induction 1 as [| x rest Hx Hrest IH]; simpl; [reflexivity |].
  rewrite IH. f_equal. now apply notin_remove.
Qed.

Lemma absent_in (ks : list K) k : In k ks -> absent K_eq_dec ks k = false.
Proof.
  intros Hin. unfold absent.
  destruct (in_dec K_eq_dec k ks); [reflexivity | contradiction].
Qed.

Lemma absent_snoc_other (ks : list K) k x :
  k <> x -> absent K_eq_dec (ks ++ [k]) x = absent K_eq_dec ks x.
Proof.
  intros Hne. unfold absent.
  destruct (in_dec K_eq_dec x (ks ++ [k])) as [Hin | Hn],
           (in_dec K_eq_dec x ks) as [Hin' | Hn']; try reflexivity.
  - apply in_app_or in Hin. destruct Hin as [Hin | [Heq | []]];
      [contradiction | congruence].
  - exfalso. apply Hn, in_or_app. now left.
Qed.

Lemma filter_absent_remove_in (ks l : list K) k :
  In k ks ->
  filter (absent K_eq_dec ks) (remove K_eq_dec k l)
  = filter (absent K_eq_dec ks) l.
Proof.
  intros Hin. induction l as [| x l IH]; simpl; [reflexivity |].
  destruct (K_eq_dec k x) as [<- | Hne]; simpl.
  - now rewrite absent_in.
  - now rewrite IH.
Qed.

Lemma filter_absent_snoc (ks l : list K) k :
  filter (absent K_eq_dec (ks ++ [k])) l
  = filter (absent K_eq_dec ks) (remove K_eq_dec k l).
Proof.
  induction l as [| x l IH]; simpl; [reflexivity |].
  destruct (K_eq_dec k x) as [<- | Hne]; simpl.
  - rewrite absent_in; [exact IH | apply in_or_app; right; now left].
  - now rewrite IH, absent_snoc_other.
Qed.

Lemma filter_absent_nil (l : list K) : filter (absent K_eq_dec []) l = l.
Proof.
  induction l as [| x l IH]; simpl; [reflexivity | now rewrite IH].
Qed.

(** The series recorded from the candidates [arr] on top of [sweep]. *)
Lemma record_all_ok (eval : K -> result R) arr :
  (forall k, In k arr -> exists out, eval k = Ok out) ->
  forall sweep,
  exists sweep',
    record_all K_eq_dec eval arr sweep = Ok sweep'
    /\ keys sweep'
       = keys sweep
           ++ filter (absent K_eq_dec (keys sweep)) (first_occurrences arr)
    /\ (forall k, getitem sweep' k
                  = if in_dec K_eq_dec k arr
                    then match eval k with
                         | Ok out => Some out
                         | Raise _ => None
                         end
                    else getitem sweep k).
Proof.
  induction arr as [| x rest IH]; intros Hok sweep; simpl.
  - exists sweep. repeat split. now rewrite app_nil_r.
  - destruct (Hok x (or_introl eq_refl)) as [out Hout]. rewrite Hout.
    destruct (IH (fun k Hk => Hok k (or_intror Hk))
                 (setitem sweep x out)) as (sweep' & Hrun & Hkeys & Hget).
    exists sweep'. split; [exact Hrun |]. split.
    + rewrite Hkeys. unfold absent at 2.
      destruct (in_dec K_eq_dec x (keys sweep)) as [Hin | Hnotin].
      * rewrite keys_setitem_in by exact Hin.
        now rewrite filter_absent_remove_in.
      * rewrite keys_setitem_notin by exact Hnotin.
        rewrite filter_absent_snoc, <- app_assoc. reflexivity.
    + intros k. rewrite Hget.
      destruct (in_dec K_eq_dec k rest) as [Hin | Hnotin].
      * destruct (K_eq_dec x k); reflexivity.
      * destruct (K_eq_dec x k) as [<- | Hne].
        -- now rewrite getitem_setitem_same, Hout.
        -- apply getitem_setitem_other. congruence.
Qed.
End SweepSeriesFacts.

(** ** The Freshman Plague: what each function does to the heap *)

Import Plague.

Section PlagueRuns.
Context {C : Chap11}.
Implicit Types (h : heap System.t) (sys : System.t) (system : loc).

Lemma add_hand_washing_run h system sys spending :
  nth_error h system = Some sys ->
  add_hand_washing system spending h
  = Ok (tt, update h system (washed sys spending)).
Proof.
  intros Hsys. unfold add_hand_washing, bind, getobj, setobj.
  rewrite Hsys. cbv beta iota. rewrite Hsys. reflexivity.
Qed.

Lemma add_immunization_run h system sys fraction :
  nth_error h system = Some sys ->
  add_immunization system fraction h
  = Ok (tt, update h system (immunized sys fraction)).
Proof.
  intros Hsys. pose proof (nth_error_live _ _ _ Hsys) as Hlive.
  unfold add_immunization, bind, getobj, setobj.
  rewrite Hsys. cbv beta iota. rewrite Hsys. cbv beta iota.
  rewrite nth_error_update_same by exact Hlive. cbv beta iota.
  rewrite nth_error_update_same by exact Hlive.
  rewrite update_update. reflexivity.
Qed.

Lemma make_system_run b g h :
  make_system b g h = Ok (length h, h ++ [make_system_value b g]).
Proof. reflexivity. Qed.

Lemma run_simulation_run h system sys uf :
  nth_error h system = Some sys ->
  run_simulation system uf h = Ok (run_simulation_value sys uf, h).
Proof.
  intros Hsys. unfold run_simulation, bind, getobj. now rewrite Hsys.
Qed.

Lemma calc_total_infected_run h system sys results :
  nth_error h system = Some sys ->
  calc_total_infected results system h
  = match frame_s results 0 with
    | Ok s_0 =>
        match frame_s results (System.t_end sys) with
        | Ok s_end => Ok (s_0 - s_end, h)
        | Raise e => Raise e
        end
    | Raise e => Raise e
    end.
Proof.
  intros Hsys. unfold calc_total_infected, bind, lift, getobj, ret.
  destruct (frame_s results 0); [| reflexivity].
  rewrite Hsys. destruct (frame_s results (System.t_end sys)); reflexivity.
Qed.

(** The tail of a pipeline, once the system has been composed at the
    newest address of the heap. *)
Lemma integrate_extract_run h sys :
  (results <- run_simulation (length h) update_func ;;
   calc_total_infected results (length h))%py (h ++ [sys])
  = match outcome sys with
    | Ok total => Ok (total, h ++ [sys])
    | Raise e => Raise e
    end.
Proof.
  unfold bind at 1.
  rewrite (run_simulation_run _ _ sys) by apply nth_error_fresh.
  rewrite (calc_total_infected_run _ _ sys) by apply nth_error_fresh.
  unfold outcome. cbv zeta.
  destruct (frame_s _ 0); [| reflexivity].
  destruct (frame_s _ (System.t_end sys)); reflexivity.
Qed.

Lemma evaluate_hand_washing_run spending h :
  evaluate_hand_washing spending h
  = match outcome (washed (make_system_value beta gamma) spending) with
    | Ok total =>
        Ok (total, h ++ [washed (make_system_value beta gamma) spending])
    | Raise e => Raise e
    end.
Proof.
  unfold evaluate_hand_washing. unfold bind at 1. rewrite make_system_run.
  unfold bind at 1.
  rewrite (add_hand_washing_run _ _ (make_system_value beta gamma))
    by apply nth_error_fresh.
  rewrite update_fresh. apply integrate_extract_run.
Qed.

Lemma evaluate_policy_run fraction spending h :
  let sys := washed (immunized (make_system_value beta gamma) fraction)
                    spending in
  evaluate_policy fraction spending h
  = match outcome sys with
    | Ok total => Ok (total, h ++ [sys])
    | Raise e => Raise e
    end.
Proof.
  intros sys. subst sys.
  unfold evaluate_policy. unfold bind at 1. rewrite make_system_run.
  unfold bind at 1.
  rewrite (add_immunization_run _ _ (make_system_value beta gamma))
    by apply nth_error_fresh.
  rewrite update_fresh. unfold bind at 1.
  rewrite (add_hand_washing_run _ _
             (immunized (make_system_value beta gamma) fraction))
    by apply nth_error_fresh.
  rewrite update_fresh. apply integrate_extract_run.
Qed.

Lemma alone_evaluate_hand_washing spending :
  alone (evaluate_hand_washing spending)
  = outcome (washed (make_system_value beta gamma) spending).
Proof.
  unfold alone. rewrite evaluate_hand_washing_run.
  destruct (outcome _); reflexivity.
Qed.

Lemma alone_evaluate_policy fraction spending :
  alone (evaluate_policy fraction spending)
  = outcome (washed (immunized (make_system_value beta gamma) fraction)
                    spending).
Proof.
  unfold alone. rewrite evaluate_policy_run.
  destruct (outcome _); reflexivity.
Qed.
End PlagueRuns.

(** ** A sweep loop whose body evaluates and records *)

Section SweepLoop.
Context {Obj K : Type} (K_eq_dec : forall a b : K, {a = b} + {a <> b}).
Variable eval : K -> result R.
Variable made : K -> Obj.
Variable body : K -> SweepSeries K -> Py Obj (SweepSeries K).

(** One iteration allocates one object, records the outcome of its candidate
    and reads nothing that an earlier iteration left behind. *)
Hypothesis body_run : forall x sweep h,
  body x sweep h
  = match eval x with
    | Ok out => Ok (setitem K_eq_dec sweep x out, h ++ [made x])
    | Raise e => Raise e
    end.

Lemma for_in_record arr : forall sweep h,
  for_in arr body sweep h
  = match record_all K_eq_dec eval arr sweep with
    | Ok sweep' => Ok (sweep', h ++ map made arr)
    | Raise e => Raise e
    end.
Proof.
  induction arr as [| x rest IH]; intros sweep h; simpl.
  - unfold ret. now rewrite app_nil_r.
  - unfold bind. rewrite body_run. destruct (eval x) as [out | e];
      [| reflexivity].
    rewrite IH, <- app_assoc. reflexivity.
Qed.

Lemma in_dec_permutation (arr arr' : list K) (A : Type) (a b : A) k :
  Permutation arr arr' ->
  (if in_dec K_eq_dec k arr' then a else b)
  = (if in_dec K_eq_dec k arr then a else b).
Proof.
  intros Hperm.
  destruct (in_dec K_eq_dec k arr') as [Hin' | Hn'],
           (in_dec K_eq_dec k arr) as [Hin | Hn]; try reflexivity.
  - exfalso. apply Hn. eapply Permutation_in; [symmetry |]; eassumption.
  - exfalso. apply Hn'. eapply Permutation_in; eassumption.
Qed.

Lemma sweep_loop_contract :
  sweep_contract K_eq_dec eval (fun arr => for_in arr body SweepSeries_new).
Proof.
  unfold sweep_contract. split; [| split].
  - intros h. reflexivity.
  - intros v h. simpl. unfold bind, ret. rewrite body_run.
    destruct (eval v) as [out | e]; [| reflexivity].
    now exists (h ++ [made v]).
  - intros arr h Hok.
    destruct (record_all_ok K_eq_dec eval arr Hok SweepSeries_new)
      as (sweep & Hrun & Hkeys & Hget).
    simpl in Hkeys. rewrite filter_absent_nil in Hkeys.
    exists sweep, (h ++ map made arr).
    split; [now rewrite for_in_record, Hrun |].
    split; [exact Hkeys |].
    split; [rewrite Hkeys; apply NoDup_first_occurrences |].
    split; [intros v; rewrite Hkeys; apply in_first_occurrences |].
    split; [intros Hnd; rewrite Hkeys; now apply first_occurrences_NoDup |].
    split.
    + intros v Hin. destruct (Hok v Hin) as [out Hout].
      exists out. split; [exact Hout |].
      rewrite Hget, Hout. destruct (in_dec K_eq_dec v arr); tauto.
    + intros arr' h2 Hperm.
      assert (Hok' : forall v, In v arr' -> exists out, eval v = Ok out).
      { intros v Hin. apply Hok. eapply Permutation_in; [symmetry |];
          eassumption. }
      destruct (record_all_ok K_eq_dec eval arr' Hok' SweepSeries_new)
        as (sweep' & Hrun' & _ & Hget').
      exists sweep', (h2 ++ map made arr').
      split; [now rewrite for_in_record, Hrun' |].
      intros v. rewrite Hget', Hget. now apply in_dec_permutation.
Qed.
End SweepLoop.

(** ** The two sweeps of the plague notebook *)

Section PlagueSweeps.
Context {C : Chap11}.
Implicit Types (h : heap System.t) (sys : System.t).

Lemma integrate_extract_record_run {A : Type} (record : R -> A) h sys :
  (results <- run_simulation (length h) update_func ;;
   total <- calc_total_infected results (length h) ;;
   ret (record total))%py (h ++ [sys])
  = match outcome sys with
    | Ok total => Ok (record total, h ++ [sys])
    | Raise e => Raise e
    end.
Proof.
  unfold bind at 1.
  rewrite (run_simulation_run _ _ sys) by apply nth_error_fresh.
  unfold bind.
  rewrite (calc_total_infected_run _ _ sys) by apply nth_error_fresh.
  unfold outcome. cbv zeta.
  destruct (frame_s _ 0); [| reflexivity].
  destruct (frame_s _ (System.t_end sys)); reflexivity.
Qed.

Lemma sweep_hand_washing_body_run x (sweep : SweepSeries R) h :
  (system <- make_system beta gamma ;;
   add_hand_washing system x ;;;
   results <- run_simulation system update_func ;;
   total <- calc_total_infected results system ;;
   ret (setitem Req_dec_T sweep x total))%py h
  = match eval_hand_washing x with
    | Ok out =>
        Ok (setitem Req_dec_T sweep x out,
            h ++ [washed (make_system_value beta gamma) x])
    | Raise e => Raise e
    end.
Proof.
  unfold eval_hand_washing. rewrite alone_evaluate_hand_washing.
  unfold bind at 1. rewrite make_system_run. unfold bind at 1.
  rewrite (add_hand_washing_run _ _ (make_system_value beta gamma))
    by apply nth_error_fresh.
  rewrite update_fresh. apply integrate_extract_record_run.
Qed.

Lemma sweep_doses_body_run d (sweep : SweepSeries Z) h :
  (let fraction := IZR d / IZR num_students in
   let spending := IZR (budget - d * price_per_dose) in
   system <- make_system beta gamma ;;
   add_immunization system fraction ;;;
   add_hand_washing system spending ;;;
   results <- run_simulation system update_func ;;
   total <- calc_total_infected results system ;;
   ret (setitem Z.eq_dec sweep d total))%py h
  = match eval_doses d with
    | Ok out => Ok (setitem Z.eq_dec sweep d out, h ++ [dosed d])
    | Raise e => Raise e
    end.
Proof.
  unfold eval_doses, dosed. rewrite alone_evaluate_policy. cbv zeta.
  unfold bind at 1. rewrite make_system_run. unfold bind at 1.
  rewrite (add_immunization_run _ _ (make_system_value beta gamma))
    by apply nth_error_fresh.
  rewrite update_fresh. unfold bind at 1.
  rewrite (add_hand_washing_run _ _
             (immunized (make_system_value beta gamma)
                        (IZR d / IZR num_students)))
    by apply nth_error_fresh.
  rewrite update_fresh. apply integrate_extract_record_run.
Qed.

Lemma sweep_hand_washing_contract :
  sweep_contract Req_dec_T eval_hand_washing sweep_hand_washing.
Proof.
  unfold sweep_hand_washing.
  apply sweep_loop_contract
    with (made := fun x => washed (make_system_value beta gamma) x).
  intros x sweep h. apply sweep_hand_washing_body_run.
Qed.

Lemma sweep_doses_contract :
  sweep_contract Z.eq_dec eval_doses sweep_doses.
Proof.
  unfold sweep_doses.
  apply sweep_loop_contract with (made := dosed).
  intros d sweep h. apply sweep_doses_body_run.
Qed.

(** C1.  Each of the two grid sweeps, [sweep_hand_washing] and
    [sweep_doses], meets [sweep_contract] from whatever heap it starts: the
    sweep of the empty sequence is the empty series; the sweep of a single
    candidate is the one entry obtained by composing, integrating and
    extracting for that candidate alone; and when every candidate evaluates,
    the series has exactly one entry per candidate, keyed by the candidate,
    in input order (order of first occurrence), each entry holding the
    outcome of the independent evaluation of its candidate, and running the
    iterations in any other order records the same entry for every key. *)
Theorem sweep_records_independent_evaluations :
  sweep_contract Req_dec_T eval_hand_washing sweep_hand_washing
  /\ sweep_contract Z.eq_dec eval_doses sweep_doses.
Proof.
  split; [apply sweep_hand_washing_contract | apply sweep_doses_contract].
Qed.
End PlagueSweeps.

(** ** The sample collaborators *)

Lemma frame_loc_chap11_steps n : forall t row sys uf t',
  (t < t' <= t + Z.of_nat n)%Z ->
  frame_loc (chap11_steps n t row sys uf) t' <> None.
Proof.
  induction n as [| n IH]; intros t row sys uf t' Ht'; [lia |].
  cbn [chap11_steps frame_loc].
  destruct (Z.eqb_spec t' (t + 1)) as [_ | Hne]; [discriminate |].
  apply IH. lia.
Qed.

Lemma chap11_full_span : @integrator_full_span chap11.
Proof.
  intros sys uf Hend. split; cbn.
  - discriminate.
  - destruct (Z.eqb_spec (System.t_end sys) 0) as [_ | Hne];
      [discriminate |].
    apply frame_loc_chap11_steps. lia.
Qed.

Lemma chap11_t_end :
  (0 <= System.t_end (@make_system_value chap11 beta gamma))%Z.
Proof. cbn. lia. Qed.

(** ** Outcomes under a full-span integrator *)

Section PlagueOutcomes.
Context {C : Chap11}.
Hypothesis integrator_ok : integrator_full_span.
Hypothesis t_end_ok : (0 <= System.t_end (make_system_value beta gamma))%Z.

Lemma outcome_ok sys :
  (0 <= System.t_end sys)%Z -> exists out, outcome sys = Ok out.
Proof.
  intros Hend. destruct (integrator_ok sys update_func Hend) as [H0 Hend'].
  unfold outcome, frame_s. cbv zeta.
  destruct (frame_loc _ 0) as [row0 |]; [| congruence].
  destruct (frame_loc _ (System.t_end sys)) as [row_end |]; [| congruence].
  eauto.
Qed.

Lemma eval_hand_washing_ok spending :
  exists out, eval_hand_washing spending = Ok out.
Proof.
  unfold eval_hand_washing. rewrite alone_evaluate_hand_washing.
  apply outcome_ok. exact t_end_ok.
Qed.

Lemma eval_doses_ok doses : exists out, eval_doses doses = Ok out.
Proof.
  unfold eval_doses. rewrite alone_evaluate_policy.
  apply outcome_ok. exact t_end_ok.
Qed.
End PlagueOutcomes.

Lemma dose_array_eq : dose_array = [0; 1; 2; 3; 4; 5; 6; 7; 8; 9; 10; 11; 12]%Z.
Proof. reflexivity. Qed.

Lemma NoDup_dose_array : NoDup dose_array.
Proof.
  rewrite dose_array_eq.
  repeat (constructor; [cbn; intros H; repeat destruct H as [H | H]; lia |]).
  constructor.
Qed.

(** C2.  With a budget of 1200 and a price of 100 per dose the sweep over
    [dose_array] succeeds and returns exactly 13 entries, keyed by the dose
    counts 0, 1, ..., 12 in this order; the entry of each dose count holds
    the outcome of the evaluation whose hand-washing spending is
    1200 - doses * 100, and that spending is never negative. *)
Theorem sweep_doses_budget `{C : Chap11} (h : heap System.t) :
  integrator_full_span ->
  (0 <= System.t_end (make_system_value beta gamma))%Z ->
  exists sweep h',
    sweep_doses dose_array h = Ok (sweep, h')
    /\ length sweep = 13%nat
    /\ keys sweep = [0; 1; 2; 3; 4; 5; 6; 7; 8; 9; 10; 11; 12]%Z
    /\ forall doses, In doses (keys sweep) ->
         (0 <= doses <= 12)%Z
         /\ exists spending out,
              spending = (1200 - doses * 100)%Z
              /\ (0 <= spending)%Z
              /\ alone (evaluate_policy (IZR doses / IZR num_students)
                                        (IZR spending)) = Ok out
              /\ getitem Z.eq_dec sweep doses = Some out.
Proof.
  intros Hspan Hend.
  destruct (@sweep_doses_contract C) as (_ & _ & Hsweep).
  destruct (Hsweep dose_array h)
    as (sweep & h' & Hrun & _ & _ & _ & Hkeys & Hget & _).
  { intros d _. now apply eval_doses_ok. }
  specialize (Hkeys NoDup_dose_array).
  exists sweep, h'. split; [exact Hrun |].
  split.
  { rewrite <- (length_map fst). fold (keys sweep). now rewrite Hkeys. }
  split; [now rewrite Hkeys, dose_array_eq |].
  intros doses Hin. rewrite Hkeys in Hin.
  assert (Hrange : (0 <= doses <= 12)%Z).
  { rewrite dose_array_eq in Hin. cbn in Hin.
    repeat destruct Hin as [Hin | Hin]; try lia. }
  split; [exact Hrange |].
  destruct (Hget doses Hin) as (out & Heval & Hentry).
  exists (1200 - doses * 100)%Z, out.
  repeat split; [lia | exact Heval | exact Hentry].
Qed.

Lemma sweep_doses_budget_witness :
  @integrator_full_span chap11
  /\ (0 <= System.t_end (@make_system_value chap11 beta gamma))%Z
  /\ exists sweep h',
       @sweep_doses chap11 dose_array [] = Ok (sweep, h')
       /\ length sweep = 13%nat
       /\ keys sweep = [0; 1; 2; 3; 4; 5; 6; 7; 8; 9; 10; 11; 12]%Z
       /\ forall doses, In doses (keys sweep) ->
            (0 <= doses <= 12)%Z
            /\ exists spending out,
                 spending = (1200 - doses * 100)%Z
                 /\ (0 <= spending)%Z
                 /\ alone (@evaluate_policy chap11
                             (IZR doses / IZR num_students) (IZR spending))
                    = Ok out
                 /\ getitem Z.eq_dec sweep doses = Some out.
Proof.
  split; [exact chap11_full_span |].
  split; [exact chap11_t_end |].
  exact (@sweep_doses_budget chap11 [] chap11_full_span chap11_t_end).
Defined.

(** A sweep of three hand-washing budgets on the sample collaborators. *)
Lemma sweep_records_independent_evaluations_witness :
  exists sweep h',
    @sweep_hand_washing chap11 [0; 600; 1200] [] = Ok (sweep, h')
    /\ keys sweep = [0; 600; 1200]
    /\ forall v, In v [0; 600; 1200] ->
         exists out, alone (@evaluate_hand_washing chap11 v) = Ok out
                     /\ getitem Req_dec_T sweep v = Some out.
Proof.
  destruct (@sweep_records_independent_evaluations chap11)
    as [(_ & _ & Hsweep) _].
  destruct (Hsweep [0; 600; 1200] [])
    as (sweep & h' & Hrun & _ & _ & _ & Hkeys & Hget & _).
  { intros v _.
    exact (@eval_hand_washing_ok chap11 chap11_full_span chap11_t_end v). }
  exists sweep, h'. split; [exact Hrun |]. split; [| exact Hget].
  apply Hkeys.
  repeat (constructor; [cbn; intros H; repeat destruct H as [H | H]; lra |]).
  constructor.
Defined.

(** C3.  On a trajectory that spans the run of the system (a row at time 0
    and a row at the declared end time), [calc_total_infected] returns the
    susceptible fraction at time 0 minus the susceptible fraction at the end
    time, and leaves the heap as it is. *)
Theorem calc_total_infected_full_span
        (results : TimeFrame) (system : loc) (sys : System.t)
        (h : heap System.t) :
  nth_error h system = Some sys ->
  full_span results sys ->
  exists row_0 row_end,
    frame_loc results 0 = Some row_0
    /\ frame_loc results (System.t_end sys) = Some row_end
    /\ calc_total_infected results system h
       = Ok (State.s row_0 - State.s row_end, h).
Proof.
  intros Hsys [H0 Hend].
  rewrite (calc_total_infected_run _ _ sys) by exact Hsys.
  unfold frame_s.
  destruct (frame_loc results 0) as [row_0 |]; [| congruence].
  destruct (frame_loc results (System.t_end sys)) as [row_end |];
    [| congruence].
  now exists row_0, row_end.
Qed.

Lemma calc_total_infected_full_span_witness :
  let sys := chap11_make_system beta gamma in
  let results := chap11_run_simulation sys chap11_update_func in
  nth_error [sys] 0 = Some sys
  /\ full_span results sys
  /\ exists row_0 row_end,
       frame_loc results 0 = Some row_0
       /\ frame_loc results (System.t_end sys) = Some row_end
       /\ calc_total_infected results 0%nat [sys]
          = Ok (State.s row_0 - State.s row_end, [sys]).
Proof.
  intros sys results.
  assert (Hspan : full_span results sys).
  { apply (@chap11_full_span sys chap11_update_func). cbn. lia. }
  split; [reflexivity |]. split; [exact Hspan |].
  exact (calc_total_infected_full_span results 0%nat sys [sys] eq_refl Hspan).
Defined.

(** C4.  Whatever the fraction [f] (in particular for every [f] in [0,1]),
    immunising a freshly made system leaves it with an initial susceptible
    fraction equal to that of the freshly made system minus [f]; with
    [f = 0] it is the unimmunised fraction itself. *)
Theorem add_immunization_susceptible_initial
        `{C : Chap11} (f : R) (h : heap System.t) :
  exists s_0 s_f h_0 h_f,
    susceptible_initial 0 h = Ok (s_0, h_0)
    /\ susceptible_initial f h = Ok (s_f, h_f)
    /\ s_0 = State.s (System.init (make_system_value beta gamma))
    /\ s_f = s_0 - f.
Proof.
  assert (Hrun : forall x,
             susceptible_initial x h
             = Ok (State.s (System.init (make_system_value beta gamma)) - x,
                   h ++ [immunized (make_system_value beta gamma) x])).
  { intros x. unfold susceptible_initial.
    unfold bind at 1. rewrite make_system_run. unfold bind at 1.
    rewrite (add_immunization_run _ _ (make_system_value beta gamma))
      by apply nth_error_fresh.
    rewrite update_fresh. unfold bind, getobj, ret.
    rewrite nth_error_fresh. reflexivity. }
  eexists _, _, _, _.
  split; [apply Hrun |]. split; [apply Hrun |]. split; lra.
Qed.

(** ** The campaign-response curve *)

Lemma compute_factor_closed_form x :
  compute_factor x = (2 / 10) / (1 + exp (- (1 / 100) * (x - 500))).
Proof.
  unfold compute_factor, logistic, py_pow. cbv zeta.
  replace (1 / 1) with 1 by field.
  rewrite Rpower_1.
  - rewrite Rmult_1_l. lra.
  - pose proof (exp_pos (- (1 / 100) * (x - 500))). lra.
Qed.

Lemma compute_factor_pos x : 0 < compute_factor x.
Proof.
  rewrite compute_factor_closed_form.
  pose proof (exp_pos (- (1 / 100) * (x - 500))).
  apply Rdiv_lt_0_compat; lra.
Qed.

Lemma compute_factor_below_K x : compute_factor x < 2 / 10.
Proof.
  rewrite compute_factor_closed_form.
  pose proof (exp_pos (- (1 / 100) * (x - 500))) as He.
  apply (Rmult_lt_reg_r (1 + exp (- (1 / 100) * (x - 500)))); [lra |].
  unfold Rdiv. rewrite Rmult_assoc, Rinv_l by lra. nra.
Qed.

Lemma exp_5_bounds : 32 < exp 5 <= 243.
Proof.
  assert (H1 : 2 < exp 1) by (pose proof (exp_ineq1 1); lra).
  pose proof exp_le_3 as H3.
  replace 5 with (1 + 1 + 1 + 1 + 1) by lra.
  rewrite !exp_plus. set (e := exp 1) in *.
  assert (He2 : 4 < e * e <= 9) by nra.
  assert (He3 : 8 < e * e * e <= 27) by nra.
  assert (He4 : 16 < e * e * e * e <= 81) by nra.
  nra.
Qed.

(** C5.  On [0, +oo) the curve [logistic(x, A=0, K=0.2, M=500, B=0.01)]
    that [compute_factor] evaluates is monotonically non-decreasing. *)
Theorem compute_factor_monotone (x y : R) :
  0 <= x -> x <= y -> compute_factor x <= compute_factor y.
Proof.
  intros _ Hxy. rewrite !compute_factor_closed_form.
  set (a := exp (- (1 / 100) * (x - 500))).
  set (b := exp (- (1 / 100) * (y - 500))).
  assert (Ha : 0 < a) by apply exp_pos.
  assert (Hb : 0 < b) by apply exp_pos.
  assert (Hba : b <= a).
  { destruct Hxy as [Hlt | ->]; [left; apply exp_increasing; lra |].
    right. reflexivity. }
  unfold Rdiv. apply Rmult_le_compat_l; [lra |].
  apply Rinv_le_contravar; lra.
Qed.

Lemma compute_factor_monotone_witness :
  0 <= 0 /\ 0 <= 1200 /\ compute_factor 0 <= compute_factor 1200.
Proof.
  split; [lra |]. split; [lra |].
  apply (compute_factor_monotone 0 1200); lra.
Defined.

(** C6, as the claim states it, fails at spending 0: the curve is more than
    8e-4 away from 0 there, far beyond any floating tolerance. *)
Lemma compute_factor_0_not_zero : 8 / 10000 < Rabs (compute_factor 0 - 0).
Proof.
  rewrite Rminus_0_r, Rabs_pos_eq by (left; apply compute_factor_pos).
  rewrite compute_factor_closed_form.
  replace (- (1 / 100) * (0 - 500)) with 5 by lra.
  pose proof exp_5_bounds as [Hlo Hhi].
  apply (Rmult_lt_reg_r (1 + exp 5)); [lra |].
  unfold Rdiv at 2. rewrite Rmult_assoc, Rinv_l by lra. lra.
Qed.

(** C6, amended.  [logistic(0, A=0, K=0.2, M=500, B=0.01)] is
    [0.2 / (1 + e^5)], a positive value between 0.0008 and 0.0061, and
    [logistic(x, A=0, K=0.2, M=500, B=0.01)] tends to 0.2 as [x] tends to
    infinity. *)
Theorem compute_factor_at_0_and_limit :
  compute_factor 0 = (2 / 10) / (1 + exp 5)
  /\ 8 / 10000 < compute_factor 0 < 61 / 10000
  /\ forall eps, 0 < eps ->
       exists X, forall x, X < x -> Rabs (compute_factor x - 2 / 10) < eps.
Proof.
  assert (H0 : compute_factor 0 = (2 / 10) / (1 + exp 5)).
  { rewrite compute_factor_closed_form. do 3 f_equal. lra. }
  pose proof exp_5_bounds as [Hlo Hhi].
  split; [exact H0 |]. split.
  - rewrite H0. split.
    + apply (Rmult_lt_reg_r (1 + exp 5)); [lra |].
      unfold Rdiv at 2. rewrite Rmult_assoc, Rinv_l by lra. lra.
    + apply (Rmult_lt_reg_r (1 + exp 5)); [lra |].
      unfold Rdiv at 1. rewrite Rmult_assoc, Rinv_l by lra. lra.
  - intros eps Heps. exists (500 - 100 * ln eps). intros x Hx.
    pose proof (compute_factor_pos x) as Hpos.
    pose proof (compute_factor_below_K x) as Hlt.
    rewrite Rabs_left by lra.
    rewrite compute_factor_closed_form in *.
    set (a := exp (- (1 / 100) * (x - 500))) in *.
    assert (Ha : 0 < a) by apply exp_pos.
    assert (Haeps : a < eps).
    { rewrite <- (exp_ln eps) by exact Heps. apply exp_increasing. lra. }
    assert (Hgap : 2 / 10 - 2 / 10 / (1 + a) = 2 / 10 * (a / (1 + a))).
    { field. lra. }
    assert (Hfrac : a / (1 + a) < a).
    { apply (Rmult_lt_reg_r (1 + a)); [lra |].
      unfold Rdiv. rewrite Rmult_assoc, Rinv_l by lra. nra. }
    assert (Hfrac0 : 0 < a / (1 + a)) by (apply Rdiv_lt_0_compat; lra).
    nra.
Qed.

(** ** The levers of the plague notebook and the heap *)

Lemma add_hand_washing_in_place system spending :
  in_place (add_hand_washing system spending) system
           (fun sys => washed sys spending).
Proof.
  intros h sys Hsys. pose proof (nth_error_live _ _ _ Hsys) as Hlive.
  exists (update h system (washed sys spending)).
  split; [now apply add_hand_washing_run |].
  split; [now apply nth_error_update_same |].
  split; [apply length_update |].
  intros l' Hne. apply nth_error_update_other. congruence.
Qed.

Lemma add_immunization_in_place system fraction :
  in_place (add_immunization system fraction) system
           (fun sys => immunized sys fraction).
Proof.
  intros h sys Hsys. pose proof (nth_error_live _ _ _ Hsys) as Hlive.
  exists (update h system (immunized sys fraction)).
  split; [now apply add_immunization_run |].
  split; [now apply nth_error_update_same |].
  split; [apply length_update |].
  intros l' Hne. apply nth_error_update_other. congruence.
Qed.

Lemma sweep_hand_washing_allocates `{C : Chap11} spending_array :
  allocates_only (sweep_hand_washing spending_array).
Proof.
  intros h sweep h' Hrun. unfold sweep_hand_washing in Hrun.
  rewrite (for_in_record Req_dec_T eval_hand_washing
             (fun x => washed (make_system_value beta gamma) x)) in Hrun
    by (intros; apply sweep_hand_washing_body_run).
  destruct (record_all _ _ _ _); [| discriminate].
  injection Hrun as _ <-. eauto.
Qed.

Lemma sweep_doses_allocates `{C : Chap11} doses :
  allocates_only (sweep_doses doses).
Proof.
  intros h sweep h' Hrun. unfold sweep_doses in Hrun.
  rewrite (for_in_record Z.eq_dec eval_doses dosed) in Hrun
    by (intros; apply sweep_doses_body_run).
  destruct (record_all _ _ _ _); [| discriminate].
  injection Hrun as _ <-. eauto.
Qed.

(** C9, as the claim states it, fails: a hand-washing budget of -100
    dollars and an immunised fraction of 100/90 (more doses than students)
    are both accepted, and the system is updated with them. *)
Lemma composer_accepts_levers_outside_domain :
  let sys := chap11_make_system beta gamma in
  add_hand_washing 0%nat (-100) [sys] = Ok (tt, [washed sys (-100)])
  /\ add_immunization 0%nat (100 / 90) [sys]
     = Ok (tt, [immunized sys (100 / 90)])
  /\ State.s (System.init (immunized sys (100 / 90))) < 0.
Proof.
  intros sys. split; [| split].
  - exact (add_hand_washing_run [sys] 0%nat sys (-100) eq_refl).
  - exact (add_immunization_run [sys] 0%nat sys (100 / 90) eq_refl).
  - cbn. lra.
Qed.

(** C9, amended.  The composer checks no domain: applied to an existing
    system, [add_hand_washing] and [add_immunization] succeed for every real
    lever value, inside or outside its declared domain, and store the
    system adjusted by that value; no failure is raised. *)
Theorem composer_accepts_every_lever
        (system : loc) (sys : System.t) (h : heap System.t) (lever : R) :
  nth_error h system = Some sys ->
  add_hand_washing system lever h
  = Ok (tt, update h system (washed sys lever))
  /\ add_immunization system lever h
     = Ok (tt, update h system (immunized sys lever)).
Proof.
  intros Hsys. split;
    [now apply add_hand_washing_run | now apply add_immunization_run].
Qed.

Lemma composer_accepts_every_lever_witness :
  let sys := chap11_make_system beta gamma in
  nth_error [sys] 0 = Some sys
  /\ add_hand_washing 0%nat 600 [sys]
     = Ok (tt, update [sys] 0%nat (washed sys 600))
  /\ add_immunization 0%nat 600 [sys]
     = Ok (tt, update [sys] 0%nat (immunized sys 600)).
Proof.
  intros sys. split; [reflexivity |].
  exact (composer_accepts_every_lever 0%nat sys [sys] 600 eq_refl).
Defined.

(** C8, as the claim states it, fails: [add_hand_washing] changes the
    system it is given in place.  After the call the heap still holds one
    object, at the same address, and it is no longer the system that
    [make_system] built. *)
Lemma add_hand_washing_mutates_system :
  let sys := chap11_make_system beta gamma in
  exists h',
    add_hand_washing 0%nat 1200 [sys] = Ok (tt, h')
    /\ length h' = 1%nat
    /\ nth_error h' 0 <> Some sys.
Proof.
  intros sys. exists [washed sys 1200].
  split; [exact (add_hand_washing_run [sys] 0%nat sys 1200 eq_refl) |].
  split; [reflexivity |].
  cbn. intros Heq. injection Heq as Heq.
  pose proof (compute_factor_pos 1200). unfold beta, tc in Heq. lra.
Qed.

(** ** Spider-Man: vectors and the spring force *)

Import SpiderMan.

Lemma vector_mag_nonneg v : 0 <= vector_mag v.
Proof. apply sqrt_pos. Qed.

Lemma vector_mag_scale v c :
  0 <= c -> vector_mag (Vector.scale v c) = vector_mag v * c.
Proof.
  intros Hc. unfold vector_mag, Vector.scale. cbn.
  replace (Vector.x v * c * (Vector.x v * c)
           + Vector.y v * c * (Vector.y v * c))
    with ((Vector.x v * Vector.x v + Vector.y v * Vector.y v) * (c * c))
    by ring.
  rewrite sqrt_mult by nra. now rewrite sqrt_square.
Qed.

Lemma vector_mag_neg v : vector_mag (Vector.neg v) = vector_mag v.
Proof.
  unfold vector_mag, Vector.neg. cbn. f_equal. ring.
Qed.

Lemma vector_mag_hat v : vector_mag v <> 0 -> vector_mag (vector_hat v) = 1.
Proof.
  intros Hne. unfold vector_hat. cbv zeta.
  destruct (Req_dec_T (vector_mag v) 0) as [Heq | _]; [contradiction |].
  assert (Hsq : vector_mag v * vector_mag v
                = Vector.x v * Vector.x v + Vector.y v * Vector.y v).
  { unfold vector_mag. apply sqrt_sqrt. nra. }
  unfold vector_mag at 1, Vector.div. cbn.
  replace (Vector.x v / vector_mag v * (Vector.x v / vector_mag v)
           + Vector.y v / vector_mag v * (Vector.y v / vector_mag v))
    with ((Vector.x v * Vector.x v + Vector.y v * Vector.y v)
          / (vector_mag v * vector_mag v))
    by (field; exact Hne).
  rewrite <- Hsq. unfold Rdiv. rewrite Rinv_r by nra. apply sqrt_1.
Qed.

Lemma scale_0 v : Vector.scale v 0 = Vector.zero.
Proof.
  unfold Vector.scale, Vector.zero. f_equal; ring.
Qed.

(** C10.  When the web is no longer than its rest length the spring force is
    the zero vector.  When it is longer, the force is the unit vector of
    [L], reversed, times [k * (|L| - length)]; and for a spring constant and
    a rest length that are not negative, that unit vector is [L / |L|], of
    magnitude 1, and the force has magnitude [k * (|L| - length)]. *)
Theorem spring_force_spec (L : Vector.t) (system : System.t) :
  (vector_mag L <= System.length system ->
   spring_force L system = Vector.zero)
  /\ (System.length system < vector_mag L ->
      spring_force L system
      = Vector.scale (Vector.neg (vector_hat L))
                     (System.k system
                      * (vector_mag L - System.length system))
      /\ (0 <= System.k system ->
          0 <= System.length system ->
          vector_hat L = Vector.div L (vector_mag L)
          /\ vector_mag (vector_hat L) = 1
          /\ vector_mag (spring_force L system)
             = System.k system * (vector_mag L - System.length system))).
Proof.
  split.
  - intros Hshort. unfold spring_force. cbv zeta.
    destruct (Rlt_dec (vector_mag L - System.length system) 0) as [_ | Hge].
    + apply scale_0.
    + replace (vector_mag L - System.length system) with 0 by lra.
      rewrite Rmult_0_r. apply scale_0.
  - intros Hlong.
    assert (Hforce : spring_force L system
                     = Vector.scale (Vector.neg (vector_hat L))
                         (System.k system
                          * (vector_mag L - System.length system))).
    { unfold spring_force. cbv zeta.
      destruct (Rlt_dec (vector_mag L - System.length system) 0);
        [lra | reflexivity]. }
    split; [exact Hforce |].
    intros Hk Hlen.
    assert (Hne : vector_mag L <> 0) by lra.
    split.
    + unfold vector_hat. cbv zeta.
      destruct (Req_dec_T (vector_mag L) 0); [contradiction | reflexivity].
    + split; [now apply vector_mag_hat |].
      rewrite Hforce, vector_mag_scale by nra.
      rewrite vector_mag_neg, vector_mag_hat by exact Hne. lra.
Qed.

Lemma spring_force_spec_witness :
  let system := System.make params (initial_condition params) 0 in
  let L := Vector.make 0 (- 101) in
  0 <= System.k system
  /\ 0 <= System.length system
  /\ System.length system < vector_mag L
  /\ vector_mag (spring_force L system) = 40.
Proof.
  intros system L.
  assert (Hk : 0 <= System.k system) by (cbn; lra).
  assert (Hlen : 0 <= System.length system) by (cbn; lra).
  assert (Hmag : vector_mag L = 101).
  { unfold vector_mag, L. cbn.
    replace (0 * 0 + - 101 * - 101) with (101 * 101) by ring.
    apply sqrt_square. lra. }
  assert (Hlong : System.length system < vector_mag L)
    by (rewrite Hmag; cbn; lra).
  repeat (split; [assumption |]).
  destruct (spring_force_spec L system) as [_ Hstretched].
  destruct (Hstretched Hlong) as (_ & Hdomain).
  destruct (Hdomain Hk Hlen) as (_ & _ & Hforce).
  rewrite Hforce, Hmag. cbn. lra.
Defined.

(** ** Spider-Man: the two phases *)

Section TwoPhase.
Context {M : Modsim}.
Implicit Types (h : heap Obj) (o : Obj).

Lemma set_t_end_run h params o v :
  nth_error h params = Some o ->
  exists o1,
    set_t_end params v h = Ok (length h, h ++ [o1])
    /\ params_of o1 = Params.set_t_end (params_of o) v.
Proof.
  intros Ho. unfold set_t_end, bind, getobj. rewrite Ho.
  destruct o as [p | sys]; eexists; split; reflexivity.
Qed.

Lemma spider_make_system_at h params o :
  nth_error h params = Some o ->
  drag_denominator (params_of o) <> 0 ->
  make_system params h
  = Ok (length h, h ++ [SystemObj (phase1_system (params_of o))]).
Proof.
  intros Ho Hden. unfold make_system, bind, getobj. rewrite Ho.
  cbv zeta. fold (drag_denominator (params_of o)).
  destruct (Req_dec_T (drag_denominator (params_of o)) 0);
    [contradiction | reflexivity].
Qed.

Lemma spider_make_system_zero_division h params o :
  nth_error h params = Some o ->
  drag_denominator (params_of o) = 0 ->
  make_system params h = Raise ZeroDivisionError.
Proof.
  intros Ho Hden. unfold make_system, bind, getobj. rewrite Ho.
  cbv zeta. fold (drag_denominator (params_of o)).
  destruct (Req_dec_T (drag_denominator (params_of o)) 0);
    [reflexivity | contradiction].
Qed.

Lemma spider_make_system_run h o :
  drag_denominator (params_of o) <> 0 ->
  make_system (length h) (h ++ [o])
  = Ok (S (length h),
        h ++ [o; SystemObj (phase1_system (params_of o))]).
Proof.
  intros Hden.
  rewrite (spider_make_system_at _ _ o)
    by (apply nth_error_fresh || exact Hden).
  rewrite length_app, <- app_assoc. cbn [length app].
  rewrite Nat.add_1_r. reflexivity.
Qed.

Lemma nth_error_second h o o' :
  nth_error (h ++ [o; o']) (S (length h)) = Some o'.
Proof.
  induction h as [| x h IH]; [reflexivity | exact IH].
Qed.

Lemma run_solve_ivp_run h system sys slope events :
  nth_error h system = Some (SystemObj sys) ->
  run_solve_ivp system slope events h
  = Ok (run_solve_ivp_value sys slope events, h).
Proof.
  intros Hsys. unfold run_solve_ivp, bind, getobj. now rewrite Hsys.
Qed.

Lemma last_row (results front : TimeFrame) t row :
  results = front ++ [(t, row)] ->
  index_last results = Ok t /\ iloc_last results = Ok row.
Proof.
  intros ->. unfold index_last, iloc_last. rewrite rev_app_distr. now cbn.
Qed.

(** The run of both phases, stage by stage. *)
Lemma run_two_phase_zero_division h params o t_release :
  nth_error h params = Some o ->
  drag_denominator (params_of o) = 0 ->
  run_two_phase t_release params h = Raise ZeroDivisionError.
Proof.
  intros Ho Hden.
  destruct (set_t_end_run h params o t_release Ho) as (o1 & Hset & Hp1).
  unfold run_two_phase. unfold bind at 1. rewrite Hset.
  unfold bind at 1.
  rewrite (spider_make_system_zero_division _ _ o1);
    [reflexivity | apply nth_error_fresh | now rewrite Hp1].
Qed.

Lemma run_two_phase_run h params o t_release :
  nth_error h params = Some o ->
  drag_denominator (params_of o) <> 0 ->
  let sys1 := phase1_system (Params.set_t_end (params_of o) t_release) in
  let results1 := fst (run_solve_ivp_value sys1 slope_func None) in
  (results1 = [] -> run_two_phase t_release params h = Raise IndexError)
  /\ forall front t_0 init,
       results1 = front ++ [(t_0, init)] ->
       let sys2 := phase2_system sys1 t_0 init in
       let results2 :=
         fst (run_solve_ivp_value sys2 slope_func (Some event_func)) in
       exists o1,
         run_two_phase t_release params h
         = Ok (results1 ++ results2,
               h ++ [o1; SystemObj sys1; SystemObj sys2]).
Proof.
  intros Ho Hden sys1 results1.
  destruct (set_t_end_run h params o t_release Ho) as (o1 & Hset & Hp1).
  assert (Hphase1 :
            run_two_phase t_release params h
            = (t_0 <- lift (index_last results1) ;;
               init <- lift (iloc_last results1) ;;
               system2 <- set_init_t_0_t_end_k (S (length h)) init t_0
                            (t_0 + 10) 0 ;;
               r2 <- run_solve_ivp system2 slope_func (Some event_func) ;;
               let (results2, _) := r2 in
               ret (concat results1 results2))%py
                (h ++ [o1; SystemObj sys1])).
  { unfold run_two_phase. unfold bind at 1. rewrite Hset.
    unfold bind at 1.
    rewrite spider_make_system_run by now rewrite Hp1.
    rewrite Hp1. fold sys1.
    unfold bind at 1.
    rewrite (run_solve_ivp_run _ _ sys1) by apply nth_error_second.
    subst results1. destruct (run_solve_ivp_value sys1 slope_func None).
    reflexivity. }
  split.
  - intros Hempty. rewrite Hphase1, Hempty. reflexivity.
  - intros front t_0 init Hlast sys2 results2.
    destruct (last_row _ _ _ _ Hlast) as [Hindex Hiloc].
    exists o1. rewrite Hphase1.
    unfold bind at 1. rewrite Hindex. cbn [lift].
    unfold bind at 1. rewrite Hiloc. cbn [lift].
    unfold bind at 1. unfold set_init_t_0_t_end_k, bind at 1, getobj.
    rewrite nth_error_second. unfold new.
    replace (length (h ++ [o1; SystemObj sys1])) with (S (S (length h)))
      by (rewrite length_app; cbn; lia).
    fold (phase2_system sys1 t_0 init). fold sys2.
    unfold bind.
    rewrite (run_solve_ivp_run _ _ sys2).
    + subst results2.
      destruct (run_solve_ivp_value sys2 slope_func (Some event_func)).
      unfold ret, concat. cbn [fst]. now rewrite <- app_assoc.
    + replace (h ++ [o1; SystemObj sys1])
        with ((h ++ [o1]) ++ [SystemObj sys1])
        by now rewrite <- app_assoc.
      replace (S (S (length h))) with (length ((h ++ [o1]) ++ [SystemObj sys1]))
        by (rewrite !length_app; cbn; lia).
      apply nth_error_fresh.
Qed.
End TwoPhase.

(** C7.  [run_two_phase] never integrates through the release.  When the
    drag coefficient can be solved (the denominator
    [rho * area * v_term**2] is not zero), phase 1 is one run of the
    integrator, without event, on the system made from the given parameters
    with the end time set to [t_release].  Phase 2 is a second run, on a
    system that starts from exactly the last sampled state and the last
    sampled time of phase 1, has its spring constant set to 0, keeps every
    other variable, and stops on the event function that returns the height
    [y]; the result is the rows of phase 1 followed by the rows of phase 2.
    (Should phase 1 return no sample at all, the access to its last row
    fails.)  When the denominator is zero, [make_system] raises
    [ZeroDivisionError] before anything is integrated. *)
Theorem run_two_phase_splices
        `{M : Modsim} (t_release : R) (params : loc) (o : Obj)
        (h : heap Obj) :
  nth_error h params = Some o ->
  let p := params_of o in
  (Params.rho p * Params.area p * Params.v_term p ^ 2 = 0 ->
   run_two_phase t_release params h = Raise ZeroDivisionError)
  /\ (Params.rho p * Params.area p * Params.v_term p ^ 2 <> 0 ->
      exists sys1,
        System.params sys1 = Params.set_t_end p t_release
        /\ System.t_end sys1 = t_release
        /\ System.k sys1 = Params.k p
        /\ System.init sys1 = initial_condition (System.params sys1)
        /\ System.C_d sys1
           = 2 * Params.mass p * Params.g p
             / (Params.rho p * Params.area p * Params.v_term p ^ 2)
        /\ (forall t state system, event_func t state system = State.y state)
        /\ let results1 := fst (run_solve_ivp_value sys1 slope_func None) in
           (results1 = [] ->
            run_two_phase t_release params h = Raise IndexError)
           /\ forall front t_0 init,
                results1 = front ++ [(t_0, init)] ->
                exists sys2 h',
                  System.init sys2 = init
                  /\ System.t_0 sys2 = t_0
                  /\ System.t_end sys2 = t_0 + 10
                  /\ System.k sys2 = 0
                  /\ same_body (System.params sys2) (System.params sys1)
                  /\ System.C_d sys2 = System.C_d sys1
                  /\ run_two_phase t_release params h
                     = Ok (results1
                             ++ fst (run_solve_ivp_value sys2 slope_func
                                       (Some event_func)),
                           h')).
Proof.
  intros Ho p. split.
  - intros Hden. now apply (run_two_phase_zero_division h params o).
  - intros Hden.
    destruct (run_two_phase_run h params o t_release Ho Hden)
      as [Hempty Hlast].
    exists (phase1_system (Params.set_t_end p t_release)).
    repeat (split; [reflexivity |]).
    cbv zeta. split; [exact Hempty |].
    intros front t_0 init Hrows.
    destruct (Hlast front t_0 init Hrows) as [o1 Hrun].
    eexists (phase2_system _ t_0 init), _.
    repeat (split; [reflexivity |]).
    split; [now repeat split |].
    split; [reflexivity | exact Hrun].
Qed.

Lemma params_drag_denominator :
  Params.rho SpiderMan.params * Params.area SpiderMan.params
  * Params.v_term SpiderMan.params ^ 2 <> 0.
Proof. cbn. lra. Qed.

Lemma run_two_phase_splices_witness :
  nth_error [ParamsObj SpiderMan.params] 0 = Some (ParamsObj SpiderMan.params)
  /\ Params.rho SpiderMan.params * Params.area SpiderMan.params
     * Params.v_term SpiderMan.params ^ 2 <> 0
  /\ exists traj h',
       @run_two_phase euler 9 0%nat [ParamsObj SpiderMan.params]
       = Ok (traj, h')
       /\ length traj = 4%nat.
Proof.
  split; [reflexivity |]. split; [exact params_drag_denominator |].
  destruct (@run_two_phase_splices euler 9 0%nat
              (ParamsObj SpiderMan.params) [ParamsObj SpiderMan.params]
              eq_refl)
    as [_ Hsplice].
  destruct (Hsplice params_drag_denominator)
    as (sys1 & _ & _ & _ & _ & _ & _ & _ & Hlast).
  cbn [run_solve_ivp_value euler] in Hlast.
  unfold euler_run_solve_ivp in Hlast.
  destruct (slope_func (System.t_0 sys1) (System.init sys1) sys1)
    as [[[dx dy] dvx] dvy].
  cbn [fst] in Hlast.
  destruct (Hlast [(System.t_0 sys1, System.init sys1)] _ _ eq_refl)
    as (sys2 & h' & _ & _ & _ & _ & _ & _ & Hrun).
  eexists _, h'. split; [exact Hrun |].
  destruct (slope_func (System.t_0 sys2) (System.init sys2) sys2)
    as [[[dx2 dy2] dvx2] dvy2].
  reflexivity.
Defined.

(** ** Computations that only create objects *)

Section AllocatesOnly.
Context {Obj : Type}.

Lemma allocates_only_ret {A} (a : A) : allocates_only (@ret Obj A a).
Proof.
  intros h a' h' Hrun. injection Hrun as _ <-. exists []. now rewrite app_nil_r.
Qed.

Lemma allocates_only_raise {A} e : allocates_only (@raise Obj A e).
Proof. intros h a h' Hrun. discriminate. Qed.

Lemma allocates_only_lift {A} (r : result A) : allocates_only (@lift Obj A r).
Proof.
  intros h a h' Hrun. unfold lift in Hrun. destruct r; [| discriminate].
  injection Hrun as _ <-. exists []. now rewrite app_nil_r.
Qed.

Lemma allocates_only_getobj l : allocates_only (@getobj Obj l).
Proof.
  intros h a h' Hrun. unfold getobj in Hrun.
  destruct (nth_error h l); [| discriminate].
  injection Hrun as _ <-. exists []. now rewrite app_nil_r.
Qed.

Lemma allocates_only_new (o : Obj) : allocates_only (new o).
Proof.
  intros h a h' Hrun. injection Hrun as _ <-. now exists [o].
Qed.

Lemma allocates_only_bind {A B} (m : Py Obj A) (f : A -> Py Obj B) :
  allocates_only m -> (forall a, allocates_only (f a)) ->
  allocates_only (bind m f).
Proof.
  intros Hm Hf h b h' Hrun. unfold bind in Hrun.
  destruct (m h) as [[a h1] | e] eqn:Hmh; [| discriminate].
  destruct (Hm _ _ _ Hmh) as [c1 ->].
  destruct (Hf a _ _ _ Hrun) as [c2 ->].
  exists (c1 ++ c2). now rewrite app_assoc.
Qed.
End AllocatesOnly.

Create HintDb alloc.

#[local] Hint Resolve allocates_only_ret allocates_only_raise
  allocates_only_lift allocates_only_getobj allocates_only_new : alloc.

Ltac allocates :=
  repeat first
    [ solve [ auto with alloc ]
    | progress cbv zeta
    | match goal with
      | |- allocates_only (match ?x with _ => _ end) => destruct x
      end
    | apply allocates_only_bind; [| intros ? ] ].

Lemma set_t_end_allocates params v : allocates_only (set_t_end params v).
Proof. unfold set_t_end. allocates. Qed.

Lemma set_init_t_0_t_end_k_allocates system init t_0 t_end k :
  allocates_only (set_init_t_0_t_end_k system init t_0 t_end k).
Proof. unfold set_init_t_0_t_end_k. allocates. Qed.

Lemma spider_make_system_allocates params :
  allocates_only (SpiderMan.make_system params).
Proof. unfold SpiderMan.make_system. allocates. Qed.

Lemma run_solve_ivp_allocates `{M : Modsim} system slope events :
  allocates_only (run_solve_ivp system slope events).
Proof. unfold run_solve_ivp. allocates. Qed.

#[local] Hint Resolve set_t_end_allocates set_init_t_0_t_end_k_allocates
  spider_make_system_allocates run_solve_ivp_allocates : alloc.

Lemma run_two_phase_allocates `{M : Modsim} t_release params :
  allocates_only (run_two_phase t_release params).
Proof. unfold run_two_phase. allocates. Qed.

(** C8, amended.  The two levers of the plague notebook change the system
    they are given in place: [add_hand_washing] rescales its [beta],
    [add_immunization] moves a fraction from [s] to [r] of its [init]; the
    object stays at its address and no other object changes.  Every sweep
    iteration composes a system of its own, so a sweep leaves each object
    that existed before it unchanged.  [set], [make_system] and
    [run_two_phase] of the Spider-Man notebook derive every configuration
    as a new object and leave the original unchanged. *)
Theorem parameters_updates_and_copies `{C : Chap11} `{M : Modsim} :
  (forall system spending,
      in_place (add_hand_washing system spending) system
               (fun sys => washed sys spending))
  /\ (forall system fraction,
        in_place (add_immunization system fraction) system
                 (fun sys => immunized sys fraction))
  /\ (forall spending_array, allocates_only (sweep_hand_washing spending_array))
  /\ (forall doses, allocates_only (sweep_doses doses))
  /\ (forall params v, allocates_only (set_t_end params v))
  /\ (forall system init t_0 t_end k,
        allocates_only (set_init_t_0_t_end_k system init t_0 t_end k))
  /\ (forall params, allocates_only (SpiderMan.make_system params))
  /\ (forall t_release params,
        allocates_only (run_two_phase t_release params)).
Proof.
  split; [exact add_hand_washing_in_place |].
  split; [exact add_immunization_in_place |].
  split; [exact sweep_hand_washing_allocates |].
  split; [exact sweep_doses_allocates |].
  split; [exact set_t_end_allocates |].
  split; [exact set_init_t_0_t_end_k_allocates |].
  split; [exact spider_make_system_allocates |].
  exact run_two_phase_allocates.
Qed.

(** On the sample collaborators: a sweep and a two-phase run leave the
    object that was on the heap before them unchanged. *)
Lemma parameters_updates_and_copies_witness :
  (forall sweep h',
      @sweep_hand_washing chap11 [0; 600] [chap11_make_system beta gamma]
      = Ok (sweep, h') ->
      nth_error h' 0 = Some (chap11_make_system beta gamma))
  /\ (forall traj h',
         @run_two_phase euler 9 0%nat [ParamsObj SpiderMan.params]
         = Ok (traj, h') ->
         nth_error h' 0 = Some (ParamsObj SpiderMan.params)).
Proof.
  destruct (@parameters_updates_and_copies chap11 euler)
    as (_ & _ & Hsweep & _ & _ & _ & _ & Htwo).
  split.
  - intros sweep h' Hrun. destruct (Hsweep _ _ _ _ Hrun) as [created ->].
    reflexivity.
  - intros traj h' Hrun. destruct (Htwo _ _ _ _ _ Hrun) as [created ->].
    reflexivity.
Defined.

(** * Further properties of the notebooks *)

(** ** The generalised logistic function *)

Lemma logistic_denom_pos x B C M Q :
  0 < C -> 0 <= Q -> 0 < C + Q * exp (- B * (x - M)).
Proof.
  intros HC HQ. pose proof (exp_pos (- B * (x - M))). nra.
Qed.

(** X1.  For a steepness [B] and a shift [Q] that are not negative, a
    positive [C], a positive [nu] and an upper bound [K] not below the lower
    bound [A], [logistic] is non-decreasing in [x]. *)
Theorem logistic_monotone (A B C M K Q nu x y : R) :
  0 <= B -> 0 <= Q -> 0 < C -> 0 < nu -> A <= K ->
  x <= y ->
  logistic x A B C M K Q nu <= logistic y A B C M K Q nu.
Proof.
  intros HB HQ HC Hnu HAK Hxy. unfold logistic, py_pow. cbv zeta.
  set (dx := C + Q * exp (- B * (x - M))).
  set (dy := C + Q * exp (- B * (y - M))).
  assert (Hdy : 0 < dy) by now apply logistic_denom_pos.
  assert (Hle : dy <= dx).
  { subst dx dy. apply Rplus_le_compat_l, Rmult_le_compat_l; [exact HQ |].
    assert (Harg : - B * (y - M) <= - B * (x - M)) by nra.
    destruct Harg as [Hlt | ->]; [left; now apply exp_increasing | right].
    reflexivity. }
  assert (Hexp : 0 <= 1 / nu).
  { left. apply Rdiv_lt_0_compat; lra. }
  assert (Hpow : Rpower dy (1 / nu) <= Rpower dx (1 / nu)).
  { apply Rle_Rpower_l; [exact Hexp | split; assumption]. }
  assert (Hpy : 0 < Rpower dy (1 / nu)) by apply exp_pos.
  apply Rplus_le_compat_l. unfold Rdiv at 1 3.
  apply Rmult_le_compat_l; [lra |].
  apply Rinv_le_contravar; assumption.
Qed.

Lemma logistic_monotone_witness :
  0 <= 1 / 100 /\ 0 <= 1 /\ 0 < 1 /\ 0 < 2 /\ 0 <= 2 / 10 /\ 100 <= 900
  /\ logistic 100 0 (1 / 100) 1 500 (2 / 10) 1 2
     <= logistic 900 0 (1 / 100) 1 500 (2 / 10) 1 2.
Proof.
  repeat (split; [lra |]).
  apply (logistic_monotone 0 (1 / 100) 1 500 (2 / 10) 1 2 100 900); lra.
Defined.

(** X2.  Read over the reals: with [C] at least 1, a positive shift [Q], a
    positive [nu] and [A <= K], the value of [logistic] never leaves the
    closed interval from the lower bound [A] to the upper bound [K],
    whatever [x], [B] and [M].  (The bounds are not strict: in floating
    point the curve saturates to the bounds themselves.) *)
Theorem logistic_between_bounds (A B C M K Q nu x : R) :
  1 <= C -> 0 < Q -> 0 < nu -> A <= K ->
  A <= logistic x A B C M K Q nu <= K.
Proof.
  intros HC HQ Hnu HAK. unfold logistic, py_pow. cbv zeta.
  set (d := C + Q * exp (- B * (x - M))).
  assert (Hd : 1 < d).
  { subst d. pose proof (exp_pos (- B * (x - M))). nra. }
  assert (Hexp : 0 < 1 / nu) by (apply Rdiv_lt_0_compat; lra).
  assert (Hpow : 1 < Rpower d (1 / nu)).
  { rewrite <- (Rpower_1 1) at 1 by lra.
    replace (Rpower 1 1) with (Rpower 1 (1 / nu)).
    - apply Rlt_Rpower_l; [exact Hexp | lra].
    - unfold Rpower. rewrite ln_1, !Rmult_0_r. reflexivity. }
  assert (Hfrac : 0 <= (K - A) / Rpower d (1 / nu) <= K - A).
  { split.
    - apply Rmult_le_pos; [lra |]. left. apply Rinv_0_lt_compat. lra.
    - apply (Rmult_le_reg_r (Rpower d (1 / nu))); [lra |].
      unfold Rdiv. rewrite Rmult_assoc, Rinv_l by lra. nra. }
  lra.
Qed.

Lemma logistic_between_bounds_witness :
  1 <= 1 /\ 0 < 1 /\ 0 < 1 /\ 0 <= 2 / 10
  /\ 0 <= compute_factor 1200 <= 2 / 10.
Proof.
  repeat (split; [lra |]).
  apply (logistic_between_bounds 0 (1 / 100) 1 500 (2 / 10) 1 1 1200); lra.
Defined.

(** X3.  With [C = Q = nu = 1], [logistic] takes the value halfway between
    [A] and [K] at [x = M], whatever the steepness; for [compute_factor]
    this is a reduction of 10 percent at a spending of 500. *)
Theorem logistic_midpoint (A B M K : R) :
  logistic M A B 1 M K 1 1 = A + (K - A) / 2
  /\ compute_factor 500 = 1 / 10.
Proof.
  assert (Hmid : forall A B M K, logistic M A B 1 M K 1 1 = A + (K - A) / 2).
  { clear. intros A B M K. unfold logistic, py_pow. cbv zeta.
    replace (- B * (M - M)) with 0 by ring.
    rewrite exp_0. replace (1 / 1) with 1 by field.
    rewrite Rpower_1 by lra. f_equal. f_equal. ring. }
  split; [apply Hmid |].
  unfold compute_factor. rewrite Hmid. lra.
Qed.

(** ** The levers of the plague notebook *)

(** X4.  On a system whose contact rate [beta] is not negative,
    [add_hand_washing] never raises the contact rate and never lowers it by
    more than 20 percent; it leaves [init], [t_end] and [gamma] as they
    are. *)
Theorem add_hand_washing_beta_bounds
        (system : loc) (sys : Plague.System.t) (h : heap Plague.System.t)
        (spending : R) :
  nth_error h system = Some sys ->
  0 <= Plague.System.beta sys ->
  exists sys' h',
    add_hand_washing system spending h = Ok (tt, h')
    /\ nth_error h' system = Some sys'
    /\ 8 / 10 * Plague.System.beta sys <= Plague.System.beta sys'
       <= Plague.System.beta sys
    /\ Plague.System.init sys' = Plague.System.init sys
    /\ Plague.System.t_end sys' = Plague.System.t_end sys
    /\ Plague.System.gamma sys' = Plague.System.gamma sys.
Proof.
  intros Hsys Hbeta.
  destruct (add_hand_washing_in_place system spending h sys Hsys)
    as (h' & Hrun & Hat & _).
  exists (washed sys spending), h'.
  split; [exact Hrun |]. split; [exact Hat |].
  split; [| now repeat split].
  pose proof (compute_factor_pos spending).
  pose proof (compute_factor_below_K spending).
  cbn. nra.
Qed.

Lemma add_hand_washing_beta_bounds_witness :
  let sys := chap11_make_system beta gamma in
  nth_error [sys] 0 = Some sys
  /\ 0 <= Plague.System.beta sys
  /\ exists sys' h',
       add_hand_washing 0%nat 800 [sys] = Ok (tt, h')
       /\ nth_error h' 0 = Some sys'
       /\ 8 / 10 * Plague.System.beta sys <= Plague.System.beta sys'
          <= Plague.System.beta sys.
Proof.
  intros sys.
  assert (Hbeta : 0 <= Plague.System.beta sys)
    by (cbn; unfold beta, tc; lra).
  split; [reflexivity |]. split; [exact Hbeta |].
  destruct (add_hand_washing_beta_bounds 0%nat sys [sys] 800 eq_refl Hbeta)
    as (sys' & h' & Hrun & Hat & Hbounds & _).
  now exists sys', h'.
Defined.

Lemma washed_immunized_commute sys fraction spending :
  washed (immunized sys fraction) spending
  = immunized (washed sys spending) fraction.
Proof. reflexivity. Qed.

(** X5.  The two levers act on different variables of the system, so the
    order in which they are applied does not matter: immunising and then
    washing hands leaves the same heap as washing hands and then
    immunising. *)
Theorem levers_commute
        (system : loc) (sys : Plague.System.t) (h : heap Plague.System.t)
        (fraction spending : R) :
  nth_error h system = Some sys ->
  (add_immunization system fraction ;;;
   add_hand_washing system spending)%py h
  = (add_hand_washing system spending ;;;
     add_immunization system fraction)%py h.
Proof.
  intros Hsys. pose proof (nth_error_live _ _ _ Hsys) as Hlive.
  unfold bind.
  rewrite (add_immunization_run h system sys fraction Hsys).
  rewrite (add_hand_washing_run h system sys spending Hsys).
  rewrite (add_hand_washing_run _ system (immunized sys fraction) spending)
    by now apply nth_error_update_same.
  rewrite (add_immunization_run _ system (washed sys spending) fraction)
    by now apply nth_error_update_same.
  now rewrite !update_update, washed_immunized_commute.
Qed.

Lemma levers_commute_witness :
  let sys := chap11_make_system beta gamma in
  nth_error [sys] 0 = Some sys
  /\ (add_immunization 0%nat (4 / 90) ;;; add_hand_washing 0%nat 800)%py [sys]
     = (add_hand_washing 0%nat 800 ;;; add_immunization 0%nat (4 / 90))%py
         [sys].
Proof.
  intros sys. split; [reflexivity |].
  exact (levers_commute 0%nat sys [sys] (4 / 90) 800 eq_refl).
Defined.

(** X6.  [add_immunization] moves the fraction from the susceptible to the
    recovered compartment: the total [s + i + r] and the infected fraction
    are kept, and so are [beta], [gamma] and [t_end]; immunising twice is
    immunising once with the sum of the two fractions. *)
Theorem add_immunization_conserves
        (system : loc) (sys : Plague.System.t) (h : heap Plague.System.t)
        (f1 f2 : R) :
  nth_error h system = Some sys ->
  (exists sys' h',
      add_immunization system f1 h = Ok (tt, h')
      /\ nth_error h' system = Some sys'
      /\ Plague.State.s (Plague.System.init sys')
         + Plague.State.i (Plague.System.init sys')
         + Plague.State.r (Plague.System.init sys')
         = Plague.State.s (Plague.System.init sys)
           + Plague.State.i (Plague.System.init sys)
           + Plague.State.r (Plague.System.init sys)
      /\ Plague.State.i (Plague.System.init sys')
         = Plague.State.i (Plague.System.init sys)
      /\ Plague.System.beta sys' = Plague.System.beta sys
      /\ Plague.System.gamma sys' = Plague.System.gamma sys
      /\ Plague.System.t_end sys' = Plague.System.t_end sys)
  /\ (add_immunization system f1 ;;; add_immunization system f2)%py h
     = add_immunization system (f1 + f2) h.
Proof.
  intros Hsys. pose proof (nth_error_live _ _ _ Hsys) as Hlive. split.
  - destruct (add_immunization_in_place system f1 h sys Hsys)
      as (h' & Hrun & Hat & _).
    exists (immunized sys f1), h'.
    split; [exact Hrun |]. split; [exact Hat |].
    split; [cbn; lra |]. now repeat split.
  - unfold bind.
    rewrite (add_immunization_run h system sys f1 Hsys).
    rewrite (add_immunization_run _ system (immunized sys f1) f2)
      by now apply nth_error_update_same.
    rewrite (add_immunization_run h system sys (f1 + f2) Hsys).
    rewrite update_update. do 3 f_equal.
    unfold immunized, Plague.System.set_init. cbn. f_equal. f_equal; lra.
Qed.

Lemma add_immunization_conserves_witness :
  let sys := chap11_make_system beta gamma in
  nth_error [sys] 0 = Some sys
  /\ (add_immunization 0%nat (1 / 90) ;;; add_immunization 0%nat (3 / 90))%py
       [sys]
     = add_immunization 0%nat (1 / 90 + 3 / 90) [sys].
Proof.
  intros sys. split; [reflexivity |].
  exact (proj2 (add_immunization_conserves 0%nat sys [sys] (1 / 90) (3 / 90)
                  eq_refl)).
Defined.

(** ** Failures of the plague pipeline *)

(** X7.  [calc_total_infected] raises [KeyError], and changes nothing, when
    the results have no row at time 0, and also when they have no row at
    the end time the system declares. *)
Theorem calc_total_infected_missing_row
        (results : Plague.TimeFrame) (system : loc) (sys : Plague.System.t)
        (h : heap Plague.System.t) :
  nth_error h system = Some sys ->
  frame_loc results 0 = None
  \/ frame_loc results (Plague.System.t_end sys) = None ->
  calc_total_infected results system h = Raise KeyError.
Proof.
  intros Hsys Hmissing.
  rewrite (calc_total_infected_run _ _ sys) by exact Hsys.
  unfold frame_s. destruct Hmissing as [H0 | Hend].
  - now rewrite H0.
  - rewrite Hend. now destruct (frame_loc results 0).
Qed.

Lemma calc_total_infected_missing_row_witness :
  let sys := chap11_make_system beta gamma in
  let results := [(0%Z, Plague.System.init sys)] in
  nth_error [sys] 0 = Some sys
  /\ (frame_loc results 0 = None
      \/ frame_loc results (Plague.System.t_end sys) = None)
  /\ calc_total_infected results 0%nat [sys] = Raise KeyError.
Proof.
  intros sys results.
  assert (Hmissing : frame_loc results 0 = None
                     \/ frame_loc results (Plague.System.t_end sys) = None)
    by (right; reflexivity).
  split; [reflexivity |]. split; [exact Hmissing |].
  exact (calc_total_infected_missing_row results 0%nat sys [sys] eq_refl
           Hmissing).
Defined.

Section SweepFailure.
Context {K : Type} (K_eq_dec : forall a b : K, {a = b} + {a <> b}).

Lemma record_all_raise (eval : K -> result R) before v after e :
  (forall k, In k before -> exists out, eval k = Ok out) ->
  eval v = Raise e ->
  forall sweep,
    record_all K_eq_dec eval (before ++ v :: after) sweep = Raise e.
Proof.
  intros Hbefore Hv.
  induction before as [| x before IH]; intros sweep; cbn.
  - now rewrite Hv.
  - destruct (Hbefore x (or_introl eq_refl)) as [out ->].
    apply IH. intros k Hk. apply Hbefore. now right.
Qed.
End SweepFailure.

(** X8.  A sweep does not skip a candidate that fails: when the candidates
    before [v] evaluate and the evaluation of [v] raises, the whole sweep
    raises that same exception and no partial series is returned.  This
    holds for [sweep_hand_washing] and for [sweep_doses]. *)
Theorem sweep_stops_at_first_failure `{C : Chap11} :
  (forall before v after e h,
      (forall k, In k before -> exists out, eval_hand_washing k = Ok out) ->
      eval_hand_washing v = Raise e ->
      sweep_hand_washing (before ++ v :: after) h = Raise e)
  /\ (forall before d after e h,
         (forall k, In k before -> exists out, eval_doses k = Ok out) ->
         eval_doses d = Raise e ->
         sweep_doses (before ++ d :: after) h = Raise e).
Proof.
  split.
  - intros before v after e h Hbefore Hv. unfold sweep_hand_washing.
    rewrite (for_in_record Req_dec_T eval_hand_washing
               (fun x => washed (make_system_value beta gamma) x))
      by (intros; apply sweep_hand_washing_body_run).
    now rewrite (record_all_raise Req_dec_T eval_hand_washing
                   before v after e Hbefore Hv).
  - intros before d after e h Hbefore Hd. unfold sweep_doses.
    rewrite (for_in_record Z.eq_dec eval_doses dosed)
      by (intros; apply sweep_doses_body_run).
    now rewrite (record_all_raise Z.eq_dec eval_doses
                   before d after e Hbefore Hd).
Qed.

Lemma outcome_stopping_ok stops sys :
  stops sys = false ->
  (0 <= Plague.System.t_end sys)%Z ->
  exists out, @outcome (chap11_stopping stops) sys = Ok out.
Proof.
  intros Hgoes Hend.
  destruct (chap11_full_span sys chap11_update_func Hend) as [H0 Hlast].
  unfold outcome. cbn [run_simulation_value update_func chap11_stopping].
  rewrite Hgoes. cbn [run_simulation_value chap11] in H0, Hlast.
  unfold frame_s. cbv zeta.
  destruct (frame_loc _ 0) as [row_0 |]; [| congruence].
  destruct (frame_loc _ (Plague.System.t_end sys)) as [row_end |];
    [| congruence].
  eauto.
Qed.

Lemma outcome_stopping_fails stops sys :
  stops sys = true ->
  Plague.System.t_end sys <> 0%Z ->
  @outcome (chap11_stopping stops) sys = Raise KeyError.
Proof.
  intros Hstops Hend.
  unfold outcome. cbn [run_simulation_value update_func chap11_stopping].
  rewrite Hstops. unfold frame_s. cbn.
  destruct (Z.eqb_spec (Plague.System.t_end sys) 0);
    [contradiction | reflexivity].
Qed.

Lemma compute_factor_0_small : compute_factor 0 < 1 / 10.
Proof.
  rewrite compute_factor_closed_form.
  replace (- (1 / 100) * (0 - 500)) with 5 by lra.
  pose proof exp_5_bounds as [Hlo _].
  apply (Rmult_lt_reg_r (1 + exp 5)); [lra |].
  unfold Rdiv at 1. rewrite Rmult_assoc, Rinv_l by lra. lra.
Qed.

Lemma compute_factor_1200_large : 1 / 10 < compute_factor 1200.
Proof.
  rewrite compute_factor_closed_form.
  replace (- (1 / 100) * (1200 - 500)) with (- 7) by lra.
  assert (Hlt : exp (- 7) < 1).
  { rewrite <- exp_0. apply exp_increasing. lra. }
  pose proof (exp_pos (- 7)) as Hpos.
  apply (Rmult_lt_reg_r (1 + exp (- 7))); [lra |].
  unfold Rdiv at 2. rewrite Rmult_assoc, Rinv_l by lra. lra.
Qed.

(** With a run that gives up on a slow epidemic, a spending of 0 evaluates
    and a spending of the whole budget does not. *)
Lemma eval_hand_washing_slow_contact :
  (exists out, @eval_hand_washing (chap11_stopping slow_contact) 0 = Ok out)
  /\ @eval_hand_washing (chap11_stopping slow_contact) 1200 = Raise KeyError.
Proof.
  unfold eval_hand_washing. rewrite !alone_evaluate_hand_washing. split.
  - apply outcome_stopping_ok; [| cbn; lia].
    unfold slow_contact. cbn. unfold beta, tc.
    pose proof compute_factor_0_small.
    destruct (Rlt_dec _ _); [lra | reflexivity].
  - apply outcome_stopping_fails; [| cbn; lia].
    unfold slow_contact. cbn. unfold beta, tc.
    pose proof compute_factor_1200_large.
    destruct (Rlt_dec _ _); [reflexivity | lra].
Qed.

(** With a run that gives up when fewer than 88 of 90 are susceptible, 0
    doses and 1 dose evaluate and 2 doses do not. *)
Lemma eval_doses_few_susceptible :
  (forall k, In k [0; 1]%Z ->
     exists out, @eval_doses (chap11_stopping few_susceptible) k = Ok out)
  /\ @eval_doses (chap11_stopping few_susceptible) 2 = Raise KeyError.
Proof.
  unfold eval_doses. split.
  - intros k [<- | [<- | []]]; rewrite alone_evaluate_policy;
      (apply outcome_stopping_ok; [| cbn; lia]);
      unfold few_susceptible; cbn; unfold num_students;
      destruct (Rlt_dec _ _); (lra || reflexivity).
  - rewrite alone_evaluate_policy.
    apply outcome_stopping_fails; [| cbn; lia].
    unfold few_susceptible. cbn. unfold num_students.
    destruct (Rlt_dec _ _); [reflexivity | lra].
Qed.

Lemma sweep_stops_at_first_failure_witness :
  (forall k, In k [0] ->
     exists out, @eval_hand_washing (chap11_stopping slow_contact) k = Ok out)
  /\ @eval_hand_washing (chap11_stopping slow_contact) 1200 = Raise KeyError
  /\ @sweep_hand_washing (chap11_stopping slow_contact) [0; 1200; 600] []
     = Raise KeyError
  /\ (forall k, In k [0; 1]%Z ->
        exists out,
          @eval_doses (chap11_stopping few_susceptible) k = Ok out)
  /\ @eval_doses (chap11_stopping few_susceptible) 2 = Raise KeyError
  /\ @sweep_doses (chap11_stopping few_susceptible) [0; 1; 2; 3]%Z []
     = Raise KeyError.
Proof.
  destruct eval_hand_washing_slow_contact as [Hfirst Hfails].
  destruct eval_doses_few_susceptible as [Hbefore Hthird].
  assert (Hfirst' : forall k, In k [0] ->
            exists out,
              @eval_hand_washing (chap11_stopping slow_contact) k = Ok out)
    by (intros k [<- | []]; exact Hfirst).
  split; [exact Hfirst' |]. split; [exact Hfails |].
  split.
  - exact (proj1 (@sweep_stops_at_first_failure
                    (chap11_stopping slow_contact))
             [0] 1200 [600] KeyError [] Hfirst' Hfails).
  - split; [exact Hbefore |]. split; [exact Hthird |].
    exact (proj2 (@sweep_stops_at_first_failure
                    (chap11_stopping few_susceptible))
             [0; 1]%Z 2%Z [3%Z] KeyError [] Hbefore Hthird).
Defined.

(** X9.  Nothing is shared or reused between the iterations of a sweep:
    a sweep that returns has created exactly one system per candidate, in
    input order and also for a candidate that occurs again, each system
    being the freshly made one adjusted by the levers of its candidate. *)
Theorem sweep_composes_one_system_per_candidate `{C : Chap11} :
  (forall spending_array h sweep h',
      sweep_hand_washing spending_array h = Ok (sweep, h') ->
      h' = h ++ map (washed (make_system_value beta gamma)) spending_array
      /\ length h' = (length h + length spending_array)%nat)
  /\ (forall doses h sweep h',
         sweep_doses doses h = Ok (sweep, h') ->
         h' = h ++ map (fun d =>
                          washed (immunized (make_system_value beta gamma)
                                            (IZR d / IZR num_students))
                                 (IZR (budget - d * price_per_dose)))
                       doses
         /\ length h' = (length h + length doses)%nat).
Proof.
  split.
  - intros arr h sweep h' Hrun. unfold sweep_hand_washing in Hrun.
    rewrite (for_in_record Req_dec_T eval_hand_washing
               (fun x => washed (make_system_value beta gamma) x)) in Hrun
      by (intros; apply sweep_hand_washing_body_run).
    destruct (record_all _ _ _ _); [| discriminate].
    injection Hrun as _ <-.
    split; [reflexivity | now rewrite length_app, length_map].
  - intros arr h sweep h' Hrun. unfold sweep_doses in Hrun.
    rewrite (for_in_record Z.eq_dec eval_doses dosed) in Hrun
      by (intros; apply sweep_doses_body_run).
    destruct (record_all _ _ _ _); [| discriminate].
    injection Hrun as _ <-.
    split; [reflexivity | now rewrite length_app, length_map].
Qed.

Lemma sweep_composes_one_system_per_candidate_witness :
  exists sweep h',
    @sweep_hand_washing chap11 [600; 600] [] = Ok (sweep, h')
    /\ length h' = 2%nat
    /\ length sweep = 1%nat.
Proof.
  destruct (@sweep_hand_washing_contract chap11) as (_ & _ & Hsweep).
  destruct (Hsweep [600; 600] [])
    as (sweep & h' & Hrun & Hkeys & _).
  { intros v _.
    exact (@eval_hand_washing_ok chap11 chap11_full_span chap11_t_end v). }
  exists sweep, h'. split; [exact Hrun |]. split.
  - exact (proj2 (proj1 (@sweep_composes_one_system_per_candidate chap11)
                    [600; 600] [] sweep h' Hrun)).
  - rewrite <- (length_map fst). fold (keys sweep). rewrite Hkeys. cbn.
    destruct (Req_dec_T 600 600); [reflexivity | contradiction].
Defined.

(** ** The doses of the sweep *)

Lemma in_linrange stop d :
  (0 <= stop)%Z -> In d (linrange stop) <-> (0 <= d <= stop)%Z.
Proof.
  intros Hstop. unfold linrange. rewrite in_map_iff. split.
  - intros (n & <- & Hn). apply in_seq in Hn. lia.
  - intros Hd. exists (Z.to_nat d). split; [lia |]. apply in_seq. lia.
Qed.

(** X10.  [dose_array] holds exactly the whole numbers of doses that the
    budget of 1200 can pay for at 100 per dose: a dose count is swept if
    and only if it is not negative and costs at most the budget. *)
Theorem dose_array_affordable (d : Z) :
  In d dose_array <-> (0 <= d /\ d * price_per_dose <= budget)%Z.
Proof.
  unfold dose_array. rewrite in_linrange by (cbn; lia).
  unfold max_doses, budget, price_per_dose. cbn. lia.
Qed.

(** ** Spider-Man: the start of the swing *)

Lemma spring_force_slack L system :
  vector_mag L <= SpiderMan.System.length system ->
  spring_force L system = Vector.zero.
Proof.
  intros Hshort. unfold spring_force. cbv zeta.
  destruct (Rlt_dec (vector_mag L - SpiderMan.System.length system) 0)
    as [_ | Hge].
  - apply scale_0.
  - replace (vector_mag L - SpiderMan.System.length system) with 0 by lra.
    rewrite Rmult_0_r. apply scale_0.
Qed.

Lemma vector_mag_zero : vector_mag Vector.zero = 0.
Proof.
  unfold vector_mag, Vector.zero. cbn.
  replace (0 * 0 + 0 * 0) with 0 by ring. apply sqrt_0.
Qed.

Lemma drag_force_at_rest system : drag_force Vector.zero system = Vector.zero.
Proof.
  unfold drag_force. cbv zeta. rewrite vector_mag_zero.
  replace (SpiderMan.System.rho system * 0 ^ 2
           * SpiderMan.System.C_d system * SpiderMan.System.area system / 2)
    with 0 by field.
  apply scale_0.
Qed.

(** X11.  [initial_condition] puts Spider-Man at rest on the circle of
    radius [length] around the anchor of the web at [(0, height)]. *)
Theorem initial_condition_on_circle (p : Params.t) :
  let init := initial_condition p in
  SpiderMan.State.vx init = 0
  /\ SpiderMan.State.vy init = 0
  /\ vector_mag
       (Vector.sub (Vector.make (SpiderMan.State.x init)
                                (SpiderMan.State.y init))
                   (Vector.make 0 (Params.height p)))
     = Rabs (Params.length p).
Proof.
  cbv zeta. unfold initial_condition, pol2cart, vector_mag. cbn.
  split; [reflexivity |]. split; [reflexivity |].
  set (theta := deg2rad (Params.angle p)).
  set (l := Params.length p).
  replace ((0 + l * cos theta - 0) * (0 + l * cos theta - 0)
           + (Params.height p + l * sin theta - Params.height p)
             * (Params.height p + l * sin theta - Params.height p))
    with (Rsqr l * (Rsqr (sin theta) + Rsqr (cos theta)))
    by (unfold Rsqr; ring).
  rewrite sin2_cos2, Rmult_1_r. apply sqrt_Rsqr_abs.
Qed.

(** X12.  [make_system] raises [ZeroDivisionError], creating nothing, when
    the denominator [rho * area * v_term**2] of the drag coefficient is
    zero.  Otherwise it creates one system which carries the given
    parameters and starts at rest; there the drag is zero, so that for a
    mass that is not zero the slope function at the initial state is no
    velocity and an acceleration of gravity plus the pull of the spring over
    mass. *)
Theorem make_system_starts_at_rest
        (params : loc) (o : Obj) (h : heap Obj) (t : R) :
  nth_error h params = Some o ->
  let p := params_of o in
  (Params.rho p * Params.area p * Params.v_term p ^ 2 = 0 ->
   SpiderMan.make_system params h = Raise ZeroDivisionError)
  /\ (Params.rho p * Params.area p * Params.v_term p ^ 2 <> 0 ->
      exists sys,
        SpiderMan.make_system params h = Ok (length h, h ++ [SystemObj sys])
        /\ SpiderMan.System.params sys = p
        /\ SpiderMan.State.vx (SpiderMan.System.init sys) = 0
        /\ SpiderMan.State.vy (SpiderMan.System.init sys) = 0
        /\ drag_force (Vector.make 0 0) sys = Vector.zero
        /\ (Params.mass p <> 0 ->
            let S := spring_force (web (SpiderMan.System.init sys) sys) sys in
            slope_func t (SpiderMan.System.init sys) sys
            = (0, 0, Vector.x S / Params.mass p,
               - Params.g p + Vector.y S / Params.mass p))).
Proof.
  intros Ho p. split.
  - intros Hden. now apply (spider_make_system_zero_division h params o).
  - intros Hden. exists (phase1_system p).
    split; [now apply spider_make_system_at |].
    repeat (split; [reflexivity |]).
    split; [apply drag_force_at_rest |].
    intros Hmass S. unfold slope_func.
    fold (web (SpiderMan.System.init (phase1_system p)) (phase1_system p)).
    fold S.
    replace (Vector.make
               (SpiderMan.State.vx (SpiderMan.System.init (phase1_system p)))
               (SpiderMan.State.vy (SpiderMan.System.init (phase1_system p))))
      with Vector.zero by reflexivity.
    rewrite drag_force_at_rest.
    unfold SpiderMan.System.g, SpiderMan.System.mass. cbn.
    f_equal; [f_equal |]; unfold Rdiv; ring.
Qed.

Lemma make_system_starts_at_rest_witness :
  nth_error [ParamsObj SpiderMan.params] 0 = Some (ParamsObj SpiderMan.params)
  /\ Params.rho SpiderMan.params * Params.area SpiderMan.params
     * Params.v_term SpiderMan.params ^ 2 <> 0
  /\ Params.mass SpiderMan.params <> 0
  /\ exists sys,
       SpiderMan.make_system 0%nat [ParamsObj SpiderMan.params]
       = Ok (1%nat, [ParamsObj SpiderMan.params; SystemObj sys])
       /\ slope_func 0 (SpiderMan.System.init sys) sys
          = (0, 0,
             Vector.x (spring_force (web (SpiderMan.System.init sys) sys) sys)
             / 75,
             - (98 / 10)
             + Vector.y (spring_force (web (SpiderMan.System.init sys) sys)
                                      sys)
               / 75).
Proof.
  assert (Hmass : Params.mass SpiderMan.params <> 0) by (cbn; lra).
  split; [reflexivity |]. split; [exact params_drag_denominator |].
  split; [exact Hmass |].
  destruct (make_system_starts_at_rest
              0%nat (ParamsObj SpiderMan.params)
              [ParamsObj SpiderMan.params] 0 eq_refl)
    as [_ Hmade].
  destruct (Hmade params_drag_denominator)
    as (sys & Hrun & _ & _ & _ & _ & Hslope).
  exists sys. split; [exact Hrun | exact (Hslope Hmass)].
Defined.

(** ** Spider-Man: drag *)

Lemma vector_dot_hat V : vector_dot (vector_hat V) V = vector_mag V.
Proof.
  assert (Hsq : vector_mag V * vector_mag V
                = Vector.x V * Vector.x V + Vector.y V * Vector.y V).
  { unfold vector_mag. apply sqrt_sqrt. nra. }
  unfold vector_hat. cbv zeta.
  destruct (Req_dec_T (vector_mag V) 0) as [Hzero | Hne].
  - unfold vector_dot. rewrite <- Hsq, Hzero. ring.
  - unfold vector_dot, Vector.div. cbn.
    replace (Vector.x V / vector_mag V * Vector.x V
             + Vector.y V / vector_mag V * Vector.y V)
      with ((Vector.x V * Vector.x V + Vector.y V * Vector.y V)
            / vector_mag V)
      by (field; exact Hne).
    rewrite <- Hsq. field. exact Hne.
Qed.

Lemma vector_dot_scale_neg a b c :
  vector_dot (Vector.scale (Vector.neg a) c) b = - c * vector_dot a b.
Proof.
  unfold vector_dot, Vector.scale, Vector.neg. cbn. ring.
Qed.

(** X13.  Drag opposes the motion: the dot product of the drag force with
    the velocity is minus the magnitude [rho |V|^2 C_d area / 2] times the
    speed, hence never positive for a density, a drag coefficient and an
    area that are not negative; and a body at rest feels no drag. *)
Theorem drag_force_opposes_velocity
        (V : Vector.t) (system : SpiderMan.System.t) :
  vector_dot (drag_force V system) V
  = - (SpiderMan.System.rho system * vector_mag V ^ 2
       * SpiderMan.System.C_d system * SpiderMan.System.area system / 2)
    * vector_mag V
  /\ (0 <= SpiderMan.System.rho system ->
      0 <= SpiderMan.System.C_d system ->
      0 <= SpiderMan.System.area system ->
      vector_dot (drag_force V system) V <= 0)
  /\ drag_force Vector.zero system = Vector.zero.
Proof.
  assert (Hdot : vector_dot (drag_force V system) V
                 = - (SpiderMan.System.rho system * vector_mag V ^ 2
                      * SpiderMan.System.C_d system
                      * SpiderMan.System.area system / 2)
                   * vector_mag V).
  { unfold drag_force. cbv zeta.
    rewrite vector_dot_scale_neg, vector_dot_hat. reflexivity. }
  split; [exact Hdot |]. split; [| apply drag_force_at_rest].
  intros Hrho HCd Harea. rewrite Hdot.
  pose proof (vector_mag_nonneg V) as Hmag.
  assert (Hcoef : 0 <= SpiderMan.System.rho system
                       * SpiderMan.System.C_d system
                       * SpiderMan.System.area system)
    by (repeat apply Rmult_le_pos; assumption).
  assert (Hcube : 0 <= vector_mag V ^ 2 * vector_mag V) by (cbn; nra).
  nra.
Qed.

Lemma drag_force_opposes_velocity_witness :
  let system := phase1_system SpiderMan.params in
  let V := Vector.make 10 10 in
  0 <= SpiderMan.System.rho system
  /\ 0 <= SpiderMan.System.C_d system
  /\ 0 <= SpiderMan.System.area system
  /\ vector_dot (drag_force V system) V <= 0.
Proof.
  intros system V.
  assert (Hrho : 0 <= SpiderMan.System.rho system) by (cbn; lra).
  assert (HCd : 0 <= SpiderMan.System.C_d system).
  { cbn. apply Rmult_le_pos; [lra |]. left. apply Rinv_0_lt_compat. lra. }
  assert (Harea : 0 <= SpiderMan.System.area system) by (cbn; lra).
  repeat (split; [assumption |]).
  exact (proj1 (proj2 (drag_force_opposes_velocity V system))
           Hrho HCd Harea).
Defined.

(** X14.  [make_system] solves the drag coefficient from the terminal
    velocity: for positive mass, density, area and terminal velocity, the
    drag on the system it builds at the speed [v_term] has the magnitude of
    the weight, [mass * g]; and falling straight down at [v_term] with a
    slack web, the slope function gives no acceleration. *)
Theorem make_system_terminal_velocity
        (params : loc) (o : Obj) (h : heap Obj) :
  nth_error h params = Some o ->
  0 < Params.mass (params_of o) ->
  0 < Params.rho (params_of o) ->
  0 < Params.area (params_of o) ->
  0 < Params.v_term (params_of o) ->
  exists sys,
    SpiderMan.make_system params h = Ok (length h, h ++ [SystemObj sys])
    /\ (forall V,
           vector_mag V = Params.v_term (params_of o) ->
           drag_force V sys
           = Vector.scale (Vector.neg (vector_hat V))
                          (Params.mass (params_of o) * Params.g (params_of o)))
    /\ (forall t x y,
           let state :=
             SpiderMan.State.make x y 0 (- Params.v_term (params_of o)) in
           vector_mag (web state sys) <= SpiderMan.System.length sys ->
           slope_func t state sys
           = (0, - Params.v_term (params_of o), 0, 0)).
Proof.
  intros Ho Hmass Hrho Harea Hv.
  set (p := params_of o) in *.
  assert (Hden : drag_denominator p <> 0).
  { unfold drag_denominator. apply Rgt_not_eq.
    apply Rmult_lt_0_compat; [now apply Rmult_lt_0_compat |].
    now apply pow_lt. }
  exists (phase1_system p).
  split; [now apply spider_make_system_at |].
  assert (Hdrag : forall V,
             vector_mag V = Params.v_term p ->
             drag_force V (phase1_system p)
             = Vector.scale (Vector.neg (vector_hat V))
                            (Params.mass p * Params.g p)).
  { intros V HV. unfold drag_force. cbv zeta. f_equal.
    rewrite HV. unfold SpiderMan.System.rho, SpiderMan.System.area. cbn.
    field. repeat split; lra. }
  split; [exact Hdrag |].
  intros t x y state Hslack.
  set (V := Vector.make 0 (- Params.v_term p)).
  assert (HV : vector_mag V = Params.v_term p).
  { unfold vector_mag, V. cbn.
    replace (0 * 0 + - Params.v_term p * - Params.v_term p)
      with (Params.v_term p * Params.v_term p) by ring.
    apply sqrt_square. lra. }
  assert (Hhat : vector_hat V = Vector.make 0 (- 1)).
  { unfold vector_hat. cbv zeta. rewrite HV.
    destruct (Req_dec_T (Params.v_term p) 0); [lra |].
    unfold Vector.div, V. cbn. f_equal; field; lra. }
  unfold slope_func. fold (web state (phase1_system p)).
  rewrite (spring_force_slack _ _ Hslack).
  change (Vector.make (SpiderMan.State.vx state) (SpiderMan.State.vy state))
    with V.
  rewrite (Hdrag V HV), Hhat.
  unfold SpiderMan.System.g, SpiderMan.System.mass. cbn.
  repeat f_equal; field; lra.
Qed.

Lemma make_system_terminal_velocity_witness :
  nth_error [ParamsObj SpiderMan.params] 0 = Some (ParamsObj SpiderMan.params)
  /\ 0 < Params.mass SpiderMan.params
  /\ 0 < Params.rho SpiderMan.params
  /\ 0 < Params.area SpiderMan.params
  /\ 0 < Params.v_term SpiderMan.params
  /\ exists sys,
       SpiderMan.make_system 0%nat [ParamsObj SpiderMan.params]
       = Ok (1%nat, [ParamsObj SpiderMan.params; SystemObj sys])
       /\ (forall V,
              vector_mag V = 60 ->
              drag_force V sys
              = Vector.scale (Vector.neg (vector_hat V)) (75 * (98 / 10))).
Proof.
  split; [reflexivity |].
  assert (H1 : 0 < Params.mass SpiderMan.params) by (cbn; lra).
  assert (H2 : 0 < Params.rho SpiderMan.params) by (cbn; lra).
  assert (H3 : 0 < Params.area SpiderMan.params) by (cbn; lra).
  assert (H4 : 0 < Params.v_term SpiderMan.params) by (cbn; lra).
  repeat (split; [assumption |]).
  destruct (make_system_terminal_velocity
              0%nat (ParamsObj SpiderMan.params)
              [ParamsObj SpiderMan.params] eq_refl H1 H2 H3 H4)
    as (sys & Hrun & Hdrag & _).
  exists sys. split; [exact Hrun | exact Hdrag].
Defined.

(** ** Spider-Man: after the release *)

(** X15.  Setting [k = 0] switches the spring off: on such a system the
    spring force is zero for every web vector, and, for a mass that is not
    zero, the slope function is the velocity together with gravity plus
    drag over mass. *)
Theorem spring_off_when_k_is_zero (system : SpiderMan.System.t) :
  SpiderMan.System.k system = 0 ->
  (forall L, spring_force L system = Vector.zero)
  /\ forall t state,
       SpiderMan.System.mass system <> 0 ->
       let V := Vector.make (SpiderMan.State.vx state)
                            (SpiderMan.State.vy state) in
       let A := Vector.add
                  (Vector.make 0 (- SpiderMan.System.g system))
                  (Vector.div (drag_force V system)
                              (SpiderMan.System.mass system)) in
       slope_func t state system
       = (SpiderMan.State.vx state, SpiderMan.State.vy state,
          Vector.x A, Vector.y A).
Proof.
  intros Hk.
  assert (Hspring : forall L, spring_force L system = Vector.zero).
  { intros L. unfold spring_force. cbv zeta. rewrite Hk.
    destruct (Rlt_dec _ 0); [| rewrite Rmult_0_l]; apply scale_0. }
  split; [exact Hspring |].
  intros t state _ V A. unfold slope_func. rewrite Hspring.
  subst A V. cbn. f_equal; [f_equal |]; unfold Rdiv; ring.
Qed.

Lemma spring_off_when_k_is_zero_witness :
  let system :=
    phase2_system (phase1_system SpiderMan.params) 9
                  (initial_condition SpiderMan.params) in
  let state := initial_condition SpiderMan.params in
  SpiderMan.System.k system = 0
  /\ SpiderMan.System.mass system <> 0
  /\ (forall L, spring_force L system = Vector.zero)
  /\ slope_func 9 state system
     = (0, 0,
        Vector.x (Vector.add
                    (Vector.make 0 (- SpiderMan.System.g system))
                    (Vector.div (drag_force (Vector.make 0 0) system)
                                (SpiderMan.System.mass system))),
        Vector.y (Vector.add
                    (Vector.make 0 (- SpiderMan.System.g system))
                    (Vector.div (drag_force (Vector.make 0 0) system)
                                (SpiderMan.System.mass system)))).
Proof.
  intros system state.
  assert (Hmass : SpiderMan.System.mass system <> 0) by (cbn; lra).
  destruct (spring_off_when_k_is_zero system eq_refl) as [Hspring Hslope].
  split; [reflexivity |]. split; [exact Hmass |]. split; [exact Hspring |].
  exact (Hslope 9 state Hmass).
Defined.

Lemma list_last_cases {A : Type} (l : list A) :
  l = [] \/ exists front x, l = front ++ [x].
Proof.
  induction l as [| x l _] using rev_ind; [now left | right; eauto].
Qed.

(** X16.  [range_func] never fails on its own: whenever [run_two_phase]
    returns, its trajectory has a last row and [range_func] returns the
    horizontal position [x] of that row, with the same heap; and whenever
    [run_two_phase] raises, [range_func] raises the same exception. *)
Theorem range_func_last_sample
        `{M : Modsim} (t_release : R) (params : loc) (h : heap Obj) :
  (forall traj h',
      run_two_phase t_release params h = Ok (traj, h') ->
      exists front t row,
        traj = front ++ [(t, row)]
        /\ range_func t_release params h = Ok (SpiderMan.State.x row, h'))
  /\ (forall e,
         run_two_phase t_release params h = Raise e ->
         range_func t_release params h = Raise e).
Proof.
  split.
  - intros traj h' Hrun.
    assert (Hlast : exists front t row, traj = front ++ [(t, row)]).
    { destruct (nth_error h params) as [o |] eqn:Ho.
      - destruct (Req_dec_T (drag_denominator (params_of o)) 0)
          as [Hzero | Hden].
        { rewrite (run_two_phase_zero_division h params o t_release
                     Ho Hzero) in Hrun.
          discriminate. }
        destruct (run_two_phase_run h params o t_release Ho Hden)
          as [Hempty Hrows].
        cbv zeta in Hempty, Hrows.
        destruct (list_last_cases
                    (fst (run_solve_ivp_value
                            (phase1_system
                               (Params.set_t_end (params_of o) t_release))
                            slope_func None)))
          as [Hnil | (front & [t_0 init] & Hrows1)].
        + rewrite (Hempty Hnil) in Hrun. discriminate.
        + destruct (Hrows front t_0 init Hrows1) as [o1 Hrun'].
          rewrite Hrun in Hrun'. injection Hrun' as -> _.
          rewrite Hrows1.
          destruct (list_last_cases
                      (fst (run_solve_ivp_value
                              (phase2_system
                                 (phase1_system
                                    (Params.set_t_end (params_of o)
                                                      t_release))
                                 t_0 init)
                              slope_func (Some event_func))))
            as [-> | (front2 & [t row] & ->)].
          * exists front, t_0, init. now rewrite app_nil_r.
          * exists ((front ++ [(t_0, init)]) ++ front2), t, row.
            now rewrite <- !app_assoc.
      - unfold run_two_phase, set_t_end, bind, getobj in Hrun.
        rewrite Ho in Hrun. discriminate. }
    destruct Hlast as (front & t & row & ->).
    exists front, t, row. split; [reflexivity |].
    unfold range_func, bind. rewrite Hrun.
    unfold lift, iloc_last. rewrite rev_app_distr. reflexivity.
  - intros e Hrun. unfold range_func, bind. now rewrite Hrun.
Qed.

Lemma range_func_last_sample_witness :
  exists traj h' front t row,
    @run_two_phase euler 9 0%nat [ParamsObj SpiderMan.params] = Ok (traj, h')
    /\ traj = front ++ [(t, row)]
    /\ @range_func euler 9 0%nat [ParamsObj SpiderMan.params]
       = Ok (SpiderMan.State.x row, h').
Proof.
  destruct (@run_two_phase_run euler [ParamsObj SpiderMan.params] 0%nat
              (ParamsObj SpiderMan.params) 9 eq_refl
              params_drag_denominator) as [_ Hrows].
  cbv zeta in Hrows.
  cbn [run_solve_ivp_value euler] in Hrows.
  unfold euler_run_solve_ivp in Hrows.
  destruct (slope_func _ _ _) as [[[dx dy] dvx] dvy] in Hrows.
  cbn [fst] in Hrows.
  destruct (Hrows [_] _ _ eq_refl) as [o1 Hrun].
  destruct (proj1 (@range_func_last_sample euler 9 0%nat
                     [ParamsObj SpiderMan.params]) _ _ Hrun)
    as (front & t & row & Htraj & Hrange).
  eexists _, _, front, t, row. split; [exact Hrun |].
  split; [exact Htraj | exact Hrange].
Defined.

(** ** Spider-Man: the spring pulls back *)

(** X17.  For a spring constant that is not negative the spring force never
    pushes along the web: its dot product with the web vector [L] is never
    positive, and when the web is stretched it is minus
    [k * (|L| - length)] times the length of the web. *)
Theorem spring_force_pulls_back (L : Vector.t) (system : SpiderMan.System.t) :
  0 <= SpiderMan.System.k system ->
  vector_dot (spring_force L system) L <= 0
  /\ (SpiderMan.System.length system <= vector_mag L ->
      vector_dot (spring_force L system) L
      = - (SpiderMan.System.k system
           * (vector_mag L - SpiderMan.System.length system))
        * vector_mag L).
Proof.
  intros Hk. pose proof (vector_mag_nonneg L) as Hmag.
  unfold spring_force. cbv zeta.
  rewrite vector_dot_scale_neg, vector_dot_hat.
  destruct (Rlt_dec (vector_mag L - SpiderMan.System.length system) 0)
    as [Hslack | Htaut].
  - split; [lra | intros Hlong; lra].
  - split; [| reflexivity].
    assert (0 <= SpiderMan.System.k system
                 * (vector_mag L - SpiderMan.System.length system))
      by (apply Rmult_le_pos; lra).
    nra.
Qed.

Lemma spring_force_pulls_back_witness :
  let system := phase1_system SpiderMan.params in
  let L := Vector.make 0 (- 101) in
  0 <= SpiderMan.System.k system
  /\ vector_dot (spring_force L system) L <= 0.
Proof.
  intros system L.
  assert (Hk : 0 <= SpiderMan.System.k system) by (cbn; lra).
  split; [exact Hk |].
  exact (proj1 (spring_force_pulls_back L system Hk)).
Defined.

(** ** The two pipelines of the plague notebook agree *)

Lemma immunized_0 sys : immunized sys 0 = sys.
Proof.
  destruct sys as [[s i r] t_end b g]. unfold immunized. cbn.
  unfold Plague.System.set_init. cbn. do 2 f_equal; lra.
Qed.

(** X18.  Immunising a fraction of 0 changes nothing: the pipeline with
    both levers, run with fraction 0, gives the outcome of the pipeline
    with hand washing alone; so the entry of [sweep_doses] for 0 doses is
    the entry of [sweep_hand_washing] for the whole budget of 1200. *)
Theorem evaluate_policy_without_doses `{C : Chap11} (spending : R) :
  alone (evaluate_policy 0 spending) = alone (evaluate_hand_washing spending)
  /\ eval_doses 0 = eval_hand_washing 1200.
Proof.
  assert (Hgen : forall x,
             alone (evaluate_policy 0 x) = alone (evaluate_hand_washing x)).
  { intros x.
    now rewrite alone_evaluate_policy, alone_evaluate_hand_washing,
      immunized_0. }
  split; [apply Hgen |].
  unfold eval_doses, eval_hand_washing. rewrite <- Hgen.
  replace (IZR 0 / IZR num_students) with 0 by (unfold num_students; lra).
  reflexivity.
Qed.
